(** * swarm/util.py: the delta merger and the function-to-schema converter

    A shallow embedding of [merge_fields], [merge_chunk], [parse_docstring]
    and [function_to_json] of [swarm/util.py], and the properties of them
    that the specification states.

    Python objects are modelled as JSON trees ([Value]): the accumulator and
    the delta of the merger are distinct trees, no object is reachable twice.
    In-place mutation is explicit state passing: a function that mutates an
    argument returns the argument's final state, together with the exception
    raised, if any.  The state returned with an exception is the state the
    object is left in when the exception propagates. *)

From Stdlib Require Import List String Ascii ZArith Bool Lia PeanoNat.
Import ListNotations.

Local Open Scope string_scope.
Local Open Scope list_scope.

(** ** Python values *)

Module Py.

(** The values a response accumulator or a delta holds.  A [dict] is its
    list of items in insertion order; its keys are strings. *)
#[local] Unset Elimination Schemes.
Inductive Value : Type :=
| VNone
| VBool (b : bool)
| VInt (n : Z)
| VStr (s : string)
| VList (l : list Value)
| VDict (d : list (string * Value)).
#[local] Set Elimination Schemes.

Definition Dict : Type := list (string * Value).

(** The built-in exception classes the code of this module can raise. *)
Inductive ExcKind : Type :=
| KeyError
| TypeError
| IndexError
| AttributeError
| ValueError
| NameError.

Definition is_str (v : Value) : bool :=
  match v with VStr _ => true | _ => false end.

Definition is_dict (v : Value) : bool :=
  match v with VDict _ => true | _ => false end.

(** [bool(v)] *)
Definition truthy (v : Value) : bool :=
  match v with
  | VNone => false
  | VBool b => b
  | VInt n => negb (Z.eqb n 0)
  | VStr s => negb (String.eqb s "")
  | VList l => match l with [] => false | _ => true end
  | VDict d => match d with [] => false | _ => true end
  end.

(** *** dict operations

    A dict with string keys is the list of its items in insertion order;
    the values are [Value]s in a response and strings in the result of the
    docstring parser. *)

Section DictOps.
Context {A : Type}.

(** [d.get(k)] *)
Fixpoint dict_get (k : string) (d : list (string * A)) : option A :=
  match d with
  | [] => None
  | (k', v) :: rest => if String.eqb k k' then Some v else dict_get k rest
  end.

(** [k in d] *)
Definition dict_has (k : string) (d : list (string * A)) : bool :=
  match dict_get k d with Some _ => true | None => false end.

(** [d[k] = v]: an existing key keeps its position, a new key goes last. *)
Fixpoint dict_set (k : string) (v : A) (d : list (string * A))
  : list (string * A) :=
  match d with
  | [] => [(k, v)]
  | (k', v') :: rest =>
      if String.eqb k k' then (k', v) :: rest else (k', v') :: dict_set k v rest
  end.

(** [d.pop(k, None)], the dict afterwards. *)
Fixpoint dict_pop (k : string) (d : list (string * A)) : list (string * A) :=
  match d with
  | [] => []
  | (k', v') :: rest =>
      if String.eqb k k' then rest else (k', v') :: dict_pop k rest
  end.

Definition keys (d : list (string * A)) : list string := map fst d.
End DictOps.

(** The one-character strings of [s], what iterating over a [str] yields. *)
Fixpoint chars (s : string) : list Value :=
  match s with
  | EmptyString => []
  | String c rest => VStr (String c EmptyString) :: chars rest
  end.

(** *** Subscription *)

(** [target[key]] for a string key. Only a dict accepts one: a str or a list
    wants an integer, the other values are not subscriptable. *)
Definition getitem (target : Value) (key : string) : ExcKind + Value :=
  match target with
  | VDict d =>
      match dict_get key d with
      | Some v => inr v
      | None => inl KeyError
      end
  | _ => inl TypeError
  end.

(** [target[key] = v], for a [target] on which [target[key]] succeeded. *)
Definition setitem (target : Value) (key : string) (v : Value) : Value :=
  match target with
  | VDict d => VDict (dict_set key v d)
  | _ => target
  end.

(** The position an integer subscript [n] addresses in a sequence of
    length [len]; negative subscripts count from the end. *)
Definition seq_index (len : nat) (n : Z) : option nat :=
  if (0 <=? n)%Z then
    if (n <? Z.of_nat len)%Z then Some (Z.to_nat n) else None
  else
    if (- Z.of_nat len <=? n)%Z then Some (Z.to_nat (Z.of_nat len + n)) else None.

(** A value used as an integer subscript: [bool] is a subclass of [int]. *)
Definition as_int (v : Value) : option Z :=
  match v with
  | VInt n => Some n
  | VBool true => Some 1%Z
  | VBool false => Some 0%Z
  | _ => None
  end.

Fixpoint string_nth (s : string) (i : nat) : option ascii :=
  match s, i with
  | EmptyString, _ => None
  | String c _, O => Some c
  | String _ rest, S j => string_nth rest j
  end.

(** [container[index]] for an arbitrary subscript value. *)
Definition subscript (container index : Value) : ExcKind + Value :=
  match container with
  | VList l =>
      match as_int index with
      | Some n =>
          match seq_index (List.length l) n with
          | Some i =>
              match nth_error l i with
              | Some v => inr v
              | None => inl IndexError
              end
          | None => inl IndexError
          end
      | None => inl TypeError
      end
  | VDict d =>
      match index with
      | VStr k =>
          match dict_get k d with
          | Some v => inr v
          | None => inl KeyError
          end
      | VList _ | VDict _ => inl TypeError   (* unhashable *)
      | _ => inl KeyError
      end
  | VStr s =>
      match as_int index with
      | Some n =>
          match seq_index (String.length s) n with
          | Some i =>
              match string_nth s i with
              | Some c => inr (VStr (String c EmptyString))
              | None => inl IndexError
              end
          | None => inl IndexError
          end
      | None => inl TypeError
      end
  | _ => inl TypeError
  end.

Fixpoint list_set (l : list Value) (i : nat) (v : Value) : list Value :=
  match l, i with
  | [], _ => []
  | _ :: rest, O => v :: rest
  | x :: rest, S j => x :: list_set rest j v
  end.

(** The container once the object [container[index]] has reached the state
    [v] by mutation in place; a [str] is immutable. *)
Definition subscript_update (container index v : Value) : Value :=
  match container with
  | VList l =>
      match as_int index with
      | Some n =>
          match seq_index (List.length l) n with
          | Some i => VList (list_set l i v)
          | None => container
          end
      | None => container
      end
  | VDict d =>
      match index with
      | VStr k => if dict_has k d then VDict (dict_set k v d) else container
      | _ => container
      end
  | _ => container
  end.

(** *** Induction on values, through the lists they nest *)

Section ValueInduction.
Variable P : Value -> Prop.
Hypothesis P_none : P VNone.
Hypothesis P_bool : forall b, P (VBool b).
Hypothesis P_int : forall n, P (VInt n).
Hypothesis P_str : forall s, P (VStr s).
Hypothesis P_list : forall l, Forall P l -> P (VList l).
Hypothesis P_dict : forall d, Forall (fun item => P (snd item)) d -> P (VDict d).

Fixpoint Value_ind (v : Value) : P v :=
  match v with
  | VNone => P_none
  | VBool b => P_bool b
  | VInt n => P_int n
  | VStr s => P_str s
  | VList l =>
      P_list l
        ((fix elems (xs : list Value) : Forall P xs :=
            match xs with
            | [] => Forall_nil P
            | x :: rest => Forall_cons x (Value_ind x) (elems rest)
            end) l)
  | VDict d =>
      P_dict d
        ((fix items (xs : Dict) : Forall (fun item => P (snd item)) xs :=
            match xs with
            | [] => Forall_nil _
            | (k, x) :: rest =>
                Forall_cons (P := fun item => P (snd item)) (k, x)
                  (Value_ind x) (items rest)
            end) d)
  end.
End ValueInduction.

(** *** The mappings nested in a value *)

(** A step from a container to one of its members. *)
Inductive Step : Type :=
| AtKey (k : string)
| AtIndex (i : nat).

Definition Path : Type := list Step.

Definition under (s : Step) (entry : Path * list string) : Path * list string :=
  (s :: fst entry, snd entry).

(** Every mapping reachable in [v] through dict values and list elements,
    by its path from [v], with its keys in order. *)
Fixpoint key_sets (v : Value) : list (Path * list string) :=
  match v with
  | VDict d =>
      ([], map fst d) ::
      (fix in_items (items : Dict) : list (Path * list string) :=
         match items with
         | [] => []
         | (k, x) :: rest => map (under (AtKey k)) (key_sets x) ++ in_items rest
         end) d
  | VList l =>
      (fix in_elems (i : nat) (xs : list Value) : list (Path * list string) :=
         match xs with
         | [] => []
         | x :: rest => map (under (AtIndex i)) (key_sets x) ++ in_elems (S i) rest
         end) 0 l
  | _ => []
  end.

Fixpoint items_key_sets (items : Dict) : list (Path * list string) :=
  match items with
  | [] => []
  | (k, x) :: rest => map (under (AtKey k)) (key_sets x) ++ items_key_sets rest
  end.

Fixpoint elems_key_sets (i : nat) (xs : list Value) : list (Path * list string) :=
  match xs with
  | [] => []
  | x :: rest => map (under (AtIndex i)) (key_sets x) ++ elems_key_sets (S i) rest
  end.

(** The value a mapping holds under [k]; nothing for another value. *)
Definition value_at (k : string) (v : Value) : option Value :=
  match v with
  | VDict d => dict_get k d
  | _ => None
  end.

End Py.

(** ** Python string methods

    A [str] is modelled as a [string]: its characters are the code points
    below 256, on which [isspace] and [lower] are those of Python. *)

Module Text.

Definition newline : ascii := "010"%char.
Definition colon : ascii := ":"%char.

(** [c.isspace()]: the ASCII white space, the separators FS to US, NEL
    and the no-break space. *)
Definition is_space (c : ascii) : bool :=
  let n := nat_of_ascii c in
  (((9 <=? n) && (n <=? 13)) || ((28 <=? n) && (n <=? 32))
   || (n =? 133) || (n =? 160))%nat.

Fixpoint lstrip (s : string) : string :=
  match s with
  | EmptyString => EmptyString
  | String c rest => if is_space c then lstrip rest else s
  end.

Fixpoint rstrip (s : string) : string :=
  match s with
  | EmptyString => EmptyString
  | String c rest =>
      match rstrip rest with
      | EmptyString => if is_space c then EmptyString else String c EmptyString
      | kept => String c kept
      end
  end.

(** [s.strip()] *)
Definition strip (s : string) : string := rstrip (lstrip s).

(** [c.lower()]: the letters A to Z, and the capitals of Latin-1. *)
Definition lower_char (c : ascii) : ascii :=
  let n := nat_of_ascii c in
  if (((65 <=? n) && (n <=? 90))
      || ((192 <=? n) && (n <=? 222) && negb (n =? 215)))%nat
  then ascii_of_nat (n + 32)
  else c.

(** [s.lower()] *)
Fixpoint lower (s : string) : string :=
  match s with
  | EmptyString => EmptyString
  | String c rest => String (lower_char c) (lower rest)
  end.

(** [s.startswith(p)] *)
Fixpoint startswith (s p : string) {struct p} : bool :=
  match p with
  | EmptyString => true
  | String a p' =>
      match s with
      | EmptyString => false
      | String b s' => Ascii.eqb a b && startswith s' p'
      end
  end.

(** [s.split(sep)] for a one-character separator. *)
Fixpoint split (sep : ascii) (s : string) : list string :=
  match s with
  | EmptyString => [EmptyString]
  | String c rest =>
      if Ascii.eqb c sep then EmptyString :: split sep rest
      else
        match split sep rest with
        | [] => [String c EmptyString]
        | field :: fields => String c field :: fields
        end
  end.

(** [sep in s] for a one-character [sep]. *)
Fixpoint contains_char (sep : ascii) (s : string) : bool :=
  match s with
  | EmptyString => false
  | String c rest => Ascii.eqb c sep || contains_char sep rest
  end.

(** [s.split(sep, 1)] for an [s] that contains [sep]: the text before the
    first [sep] and the text after it. *)
Fixpoint split_once (sep : ascii) (s : string) : string * string :=
  match s with
  | EmptyString => (EmptyString, EmptyString)
  | String c rest =>
      if Ascii.eqb c sep then (EmptyString, rest)
      else let '(before, after) := split_once sep rest in (String c before, after)
  end.

(** [sep.join(parts)] *)
Fixpoint join (sep : string) (parts : list string) : string :=
  match parts with
  | [] => EmptyString
  | [part] => part
  | part :: rest => (part ++ sep ++ join sep rest)%string
  end.

(** [needle in s] *)
Fixpoint contains (needle s : string) : bool :=
  startswith s needle ||
  match s with
  | EmptyString => false
  | String _ rest => contains needle rest
  end.

End Text.

(** ** The docstring parser *)

Module Docstring.
Import Py Text.

(** The local variables of [parse_docstring] that its loop updates. *)
Record ParseState : Type := mkParseState {
  description : list string;
  arg_descriptions : list (string * string);
  current_param : option string;
  in_args_section : bool
}.

Definition initial_state : ParseState := mkParseState [] [] None false.

(** The state with [in_args_section = True] and nothing else touched. *)
Definition enter_args (st : ParseState) : ParseState :=
  mkParseState (description st) (arg_descriptions st) (current_param st) true.

(** The test of the source for the start of the Args section, on a line
    already stripped. *)
Definition is_args_marker (line : string) : bool :=
  startswith (lower line) "args:".

(** [arg_descriptions[current_param] += " " + line] *)
Definition continue_param (st : ParseState) (param line : string)
  : ExcKind + ParseState :=
  match dict_get param (arg_descriptions st) with
  | Some text =>
      inr (mkParseState (description st)
             (dict_set param (text ++ (" " ++ line))%string (arg_descriptions st))
             (current_param st) (in_args_section st))
  | None => inl KeyError
  end.

(** The body of the loop over the lines, for the line [raw]. *)
Definition parse_line (st : ParseState) (raw : string) : ExcKind + ParseState :=
  let line := strip raw in
  if is_args_marker line then inr (enter_args st)
  else if negb (in_args_section st) then
    inr (mkParseState (description st ++ [line]) (arg_descriptions st)
           (current_param st) (in_args_section st))
  else if contains_char colon line then
    let '(name, text) := split_once colon line in
    let param := strip name in
    inr (mkParseState (description st)
           (dict_set param (strip text) (arg_descriptions st))
           (Some param) (in_args_section st))
  else
    match current_param st with
    | Some param =>
        if negb (String.eqb param "") && negb (String.eqb line "")
        then continue_param st param line
        else inr st
    | None => inr st
    end.

Fixpoint parse_lines (st : ParseState) (lines : list string)
  : ExcKind + ParseState :=
  match lines with
  | [] => inr st
  | raw :: rest =>
      match parse_line st raw with
      | inl e => inl e
      | inr st' => parse_lines st' rest
      end
  end.

(** What [parse_docstring] returns from the final state of its loop. *)
Definition parse_result (st : ParseState) : string * list (string * string) :=
  (strip (join " " (description st)),
   if in_args_section st then arg_descriptions st else []).

Definition parse_docstring (docstring : string)
  : ExcKind + (string * list (string * string)) :=
  match parse_lines initial_state (split newline docstring) with
  | inl e => inl e
  | inr st => inr (parse_result st)
  end.

End Docstring.

(** ** The delta merger *)

Module Merger.
Import Py.

(** [target[key] += value] for a [str] value.  A [str] is concatenated; a
    list is extended in place by the characters of [value]. *)
Definition iadd_str (target : Value) (key : string) (value : string)
  : Value * option ExcKind :=
  match getitem target key with
  | inl e => (target, Some e)
  | inr (VStr s) => (setitem target key (VStr (s ++ value)), None)
  | inr (VList l) => (setitem target key (VList (l ++ chars value)), None)
  | inr _ => (target, Some TypeError)
  end.

(** One iteration of the loop of [merge_fields], on the item [key, value] of
    the source; the inner [fix] is the loop of the recursive call. *)
Fixpoint merge_item (target : Value) (key : string) (value : Value) {struct value}
  : Value * option ExcKind :=
  match value with
  | VStr s => iadd_str target key s
  | VDict d =>
      match getitem target key with
      | inl e => (target, Some e)
      | inr sub =>
          let '(sub', r) :=
            (fix loop (t : Value) (items : Dict) {struct items}
               : Value * option ExcKind :=
               match items with
               | [] => (t, None)
               | (k, v) :: rest =>
                   match merge_item t k v with
                   | (t', None) => loop t' rest
                   | (t', Some e) => (t', Some e)
                   end
               end) sub d in
          (setitem target key sub', r)
      end
  | _ => (target, None)
  end.

(** [merge_fields(target, source)]: the final state of [target] and the
    exception raised, if any. *)
Fixpoint merge_fields (target : Value) (source : Dict) {struct source}
  : Value * option ExcKind :=
  match source with
  | [] => (target, None)
  | (key, value) :: rest =>
      match merge_item target key value with
      | (t', None) => merge_fields t' rest
      | (t', Some e) => (t', Some e)
      end
  end.

(** The outcome of [merge_chunk]: the final states of the accumulator and of
    the delta, and the exception raised, if any. *)
Record Outcome : Type := mkOutcome {
  out_response : Value;
  out_delta : Dict;
  out_raised : option ExcKind
}.

(** [tool_calls[0].pop("index")]: the popped value and the element after. *)
Definition pop_index (first : Value) : ExcKind + (Value * Dict) :=
  match first with
  | VDict f =>
      match dict_get "index" f with
      | Some i => inr (i, dict_pop "index" f)
      | None => inl KeyError
      end
  | VList _ => inl TypeError
  | _ => inl AttributeError
  end.

(** The body of the [if] of [merge_chunk], for a truthy [tool_calls]. *)
Definition merge_tool_call (acc : Value) (delta : Dict) (tool_calls : Value)
  : Outcome :=
  match tool_calls with
  | VList (first :: others) =>
      match pop_index first with
      | inl e => mkOutcome acc delta (Some e)
      | inr (index, first') =>
          let delta' := dict_set "tool_calls" (VList (VDict first' :: others)) delta in
          match getitem acc "tool_calls" with
          | inl e => mkOutcome acc delta' (Some e)
          | inr calls =>
              match subscript calls index with
              | inl e => mkOutcome acc delta' (Some e)
              | inr slot =>
                  let '(slot', r) := merge_fields slot first' in
                  mkOutcome
                    (setitem acc "tool_calls" (subscript_update calls index slot'))
                    delta' r
              end
          end
      end
  | VStr _ => mkOutcome acc delta (Some AttributeError)  (* "x".pop *)
  | VDict _ => mkOutcome acc delta (Some KeyError)       (* tool_calls[0] *)
  | _ => mkOutcome acc delta (Some TypeError)            (* len(tool_calls) *)
  end.

Definition merge_chunk (final_response : Value) (delta : Dict) : Outcome :=
  let delta := dict_pop "role" delta in
  match merge_fields final_response delta with
  | (acc, Some e) => mkOutcome acc delta (Some e)
  | (acc, None) =>
      match dict_get "tool_calls" delta with
      | Some tool_calls =>
          if truthy tool_calls
          then merge_tool_call acc delta tool_calls
          else mkOutcome acc delta None
      | None => mkOutcome acc delta None
      end
  end.

End Merger.

(** ** The function-to-schema converter *)

Module Schema.
Import Py Text Docstring.

(** An exception a callee raised: its class and what [str(e)] gives. *)
Record Exn : Type := mkExn {
  exn_kind : ExcKind;
  exn_message : string
}.

(** What leaves [function_to_json] when it raises: an exception it builds
    itself, [raise kind(message)], or the exception of a callee, as it
    was. *)
Inductive Raised : Type :=
| Raise (kind : ExcKind) (message : string)
| Propagate (e : Exn).


(** The objects a resolved type hint can be: the seven types of the table
    of the source, [typing.Any], and any other object, given by what reading
    its [__name__] gives (the name, or the exception the access raises) and by
    the exception hashing it raises, if it is unhashable. *)
Inductive PyType : Type :=
| Tstr
| Tint
| Tfloat
| Tbool
| Tlist
| Tdict
| TNoneType
| TAny
| Tother (name : Exn + string) (unhashable : option Exn).

(** [t.__name__] *)
Definition type_name (t : PyType) : Exn + string :=
  match t with
  | Tstr => inr "str"
  | Tint => inr "int"
  | Tfloat => inr "float"
  | Tbool => inr "bool"
  | Tlist => inr "list"
  | Tdict => inr "dict"
  | TNoneType => inr "NoneType"
  | TAny => inr "Any"
  | Tother name _ => name
  end.

(** The exception [hash(t)] raises, if any. *)
Definition type_hash_error (t : PyType) : option Exn :=
  match t with
  | Tother _ unhashable => unhashable
  | _ => None
  end.

(** The table [type_map] of the source; its keys are type objects. *)
Definition type_map (t : PyType) : option string :=
  match t with
  | Tstr => Some "string"
  | Tint => Some "integer"
  | Tfloat => Some "number"
  | Tbool => Some "boolean"
  | Tlist => Some "array"
  | Tdict => Some "object"
  | TNoneType => Some "null"
  | _ => None
  end.

(** The default of a parameter: none ([inspect.Parameter.empty]), a plain
    value, or another object, given by what comparing it with
    [inspect.Parameter.empty] gives: its own [__eq__] answers, and may
    raise. *)
Inductive Default : Type :=
| NoDefault
| DefaultValue (v : Value)
| DefaultObject (equals_empty : Exn + bool).

(** [param.default == inspect.Parameter.empty], as the [if] reads it. *)
Definition default_is_empty (d : Default) : Exn + bool :=
  match d with
  | NoDefault => inr true
  | DefaultValue _ => inr false
  | DefaultObject equals_empty => equals_empty
  end.

(** An [inspect.Parameter]: its name, the text [str(param.annotation)] when
    it is annotated, and its default. *)
Record Param : Type := mkParam {
  param_name : string;
  param_annotation : option string;
  param_default : Default
}.

(** What reflection tells of a callable: what reading [func.__name__]
    gives, the result of [inspect.getdoc(func)], and what
    [inspect.signature(func)] and [typing.get_type_hints(func)] give, each
    the value returned or the exception raised. *)
Record Callable : Type := mkCallable {
  fn_name : Exn + string;
  fn_doc : option string;
  fn_signature : Exn + list Param;
  fn_type_hints : Exn + list (string * PyType)
}.

(** [typing.get_type_hints(func)] *)
Definition get_type_hints (func : Callable) : Exn + list (string * PyType) :=
  fn_type_hints func.

(** [str(param.annotation)] *)
Definition annotation_text (a : option string) : string :=
  match a with
  | Some text => text
  | None => "<class 'inspect._empty'>"
  end.

(** The body of the [try] in the loop over the parameters.  The arguments
    of [type_map.get] are evaluated first, [param_type.__name__] among them;
    the call then hashes [param_type]. *)
Definition param_type_str (type_hints : list (string * PyType))
    (param : Param) : Exn + string :=
  let param_type :=
    match dict_get (param_name param) type_hints with
    | Some t => t
    | None => TAny
    end in
  match type_name param_type with
  | inl e => inl e
  | inr name =>
      match type_hash_error param_type with
      | Some e => inl e
      | None =>
          let text := match type_map param_type with Some s => s | None => name end in
          inr (if String.eqb text "Any" then "string" else text)
      end
  end.

(** The [try] with its [except KeyError] handler. *)
Definition checked_param_type (type_hints : list (string * PyType))
    (param : Param) : Raised + string :=
  match param_type_str type_hints param with
  | inr text => inr text
  | inl e =>
      match exn_kind e with
      | KeyError =>
          inl (Raise KeyError
                 ("Unknown type annotation " ++ annotation_text (param_annotation param)
                  ++ " for parameter " ++ param_name param ++ ": " ++ exn_message e))
      | _ => inl (Propagate e)
      end
  end.

(** One iteration of the loop over the parameters, on the locals
    [parameters] and [required]. *)
Definition add_parameter (type_hints : list (string * PyType))
    (arg_descriptions : list (string * string))
    (parameters : Dict) (required : list string) (param : Param)
  : Raised + (Dict * list string) :=
  match checked_param_type type_hints param with
  | inl r => inl r
  | inr text =>
      let param_info := [("type", VStr text)] in
      let param_info :=
        match arg_descriptions, dict_get (param_name param) arg_descriptions with
        | _ :: _, Some described => dict_set "description" (VStr described) param_info
        | _, _ => param_info
        end in
      let parameters := dict_set (param_name param) (VDict param_info) parameters in
      match default_is_empty (param_default param) with
      | inl e => inl (Propagate e)
      | inr true => inr (parameters, required ++ [param_name param])
      | inr false => inr (parameters, required)
      end
  end.

Fixpoint add_parameters (type_hints : list (string * PyType))
    (arg_descriptions : list (string * string))
    (params : list Param) (parameters : Dict) (required : list string)
  : Raised + (Dict * list string) :=
  match params with
  | [] => inr (parameters, required)
  | param :: rest =>
      match add_parameter type_hints arg_descriptions parameters required param with
      | inl r => inl r
      | inr (parameters', required') =>
          add_parameters type_hints arg_descriptions rest parameters' required'
      end
  end.

(** The dict [function_to_json] returns. *)
Definition schema (name description : string) (parameters : Dict)
    (required : list string) : Value :=
  VDict [("type", VStr "function");
         ("function",
          VDict [("name", VStr name);
                 ("description", VStr description);
                 ("parameters",
                  VDict [("type", VStr "object");
                         ("properties", VDict parameters);
                         ("required", VList (map VStr required))])])].

Definition function_to_json (func : Callable) : Raised + Value :=
  match fn_signature func with
  | inl e =>
      match exn_kind e with
      | ValueError =>
          match fn_name func with
          | inl missing => inl (Propagate missing)
          | inr name =>
              inl (Raise ValueError
                     ("Failed to get signature for function " ++ name
                      ++ ": " ++ exn_message e))
          end
      | _ => inl (Propagate e)
      end
  | inr params =>
      let docstring := match fn_doc func with Some doc => doc | None => "" end in
      match parse_docstring docstring with
      | inl kind => inl (Propagate (mkExn kind ""))
      | inr (description, arg_descriptions) =>
          match get_type_hints func with
          | inl e => inl (Propagate e)
          | inr type_hints =>
              match add_parameters type_hints arg_descriptions params [] [] with
              | inl r => inl r
              | inr (parameters, required) =>
                  match fn_name func with
                  | inl missing => inl (Propagate missing)
                  | inr name => inr (schema name description parameters required)
                  end
              end
          end
      end
  end.

End Schema.

(** ** Properties of the dict operations *)

Module PyFacts.
Import Py.

Section DictFacts.
Context {A : Type}.
Implicit Types (d : list (string * A)) (k key : string) (v : A).

Lemma dict_get_set_same k v d : dict_get k (dict_set k v d) = Some v.
Proof.
  induction d as [|[k' v'] rest IH]; simpl.
  - rewrite String.eqb_refl. reflexivity.
  - destruct (String.eqb k k') eqn:Hk; simpl; rewrite Hk; [reflexivity|exact IH].
Qed.

Lemma dict_get_set_other k key v d :
  k <> key -> dict_get k (dict_set key v d) = dict_get k d.
Proof.
  intros Hne. induction d as [|[k' v'] rest IH]; simpl.
  - destruct (String.eqb_spec k key); congruence.
  - destruct (String.eqb_spec key k') as [->|Hk]; simpl.
    + destruct (String.eqb_spec k k'); congruence.
    + rewrite IH. reflexivity.
Qed.

Lemma dict_has_in_keys k d : dict_has k d = true <-> In k (keys d).
Proof.
  unfold dict_has, keys. induction d as [|[k' v] rest IH]; simpl.
  - split; [discriminate|intros []].
  - destruct (String.eqb_spec k k') as [->|Hne].
    + split; [left; reflexivity|reflexivity].
    + rewrite IH. split; [right; assumption|intros [Heq|Hin]; congruence].
Qed.

Lemma dict_has_set_same k v d : dict_has k (dict_set k v d) = true.
Proof. unfold dict_has. rewrite dict_get_set_same. reflexivity. Qed.

Lemma dict_has_set_kept k key v d :
  dict_has k d = true -> dict_has k (dict_set key v d) = true.
Proof.
  destruct (String.eqb_spec k key) as [->|Hne].
  - intros _. apply dict_has_set_same.
  - unfold dict_has. rewrite dict_get_set_other by exact Hne. trivial.
Qed.

(** Assigning to a key the dict has keeps the keys and their order. *)
Lemma keys_dict_set k v v' d :
  dict_get k d = Some v -> keys (dict_set k v' d) = keys d.
Proof.
  unfold keys. induction d as [|[k' x] rest IH]; simpl; [discriminate|].
  destruct (String.eqb k k'); simpl; intros H; [reflexivity|].
  rewrite IH by assumption. reflexivity.
Qed.

(** Assigning to a key the dict lacks appends the key. *)
Lemma keys_dict_set_new k v d :
  ~ In k (keys d) -> keys (dict_set k v d) = keys d ++ [k].
Proof.
  unfold keys. induction d as [|[k' v'] rest IH]; simpl; intros Hnew; [reflexivity|].
  destruct (String.eqb_spec k k') as [->|Hne]; [tauto|].
  simpl. rewrite IH by tauto. reflexivity.
Qed.

Lemma keys_dict_set_in k key v d :
  In k (keys (dict_set key v d)) <-> k = key \/ In k (keys d).
Proof.
  unfold keys. induction d as [|[k' v'] rest IH]; simpl.
  - intuition congruence.
  - destruct (String.eqb_spec key k') as [->|Hne]; simpl.
    + intuition congruence.
    + rewrite IH. intuition congruence.
Qed.

End DictFacts.

End PyFacts.

(** ** Properties of the string methods *)

Module TextFacts.
Import Text.

Lemma startswith_append (s p : string) :
  startswith s p = true <-> exists rest, s = (p ++ rest)%string.
Proof.
  revert s. induction p as [|c p IH]; intros s; simpl.
  - split; [intros _; exists s; reflexivity|reflexivity].
  - destruct s as [|c' s]; simpl.
    + split; [discriminate|intros [rest H]; discriminate].
    + destruct (Ascii.eqb_spec c c') as [->|Hne]; simpl.
      * rewrite IH. split; intros [rest H]; exists rest; congruence.
      * split; [discriminate|intros [rest H]; congruence].
Qed.

Lemma contains_unfold (needle s : string) :
  contains needle s =
  startswith s needle ||
  match s with
  | EmptyString => false
  | String _ rest => contains needle rest
  end.
Proof. destruct s; reflexivity. Qed.

Lemma contains_prefix (needle rest : string) :
  contains needle (needle ++ rest) = true.
Proof.
  rewrite contains_unfold.
  assert (H : startswith (needle ++ rest) needle = true)
    by (apply startswith_append; exists rest; reflexivity).
  rewrite H. reflexivity.
Qed.

Lemma contains_after (needle before s : string) :
  contains needle s = true -> contains needle (before ++ s) = true.
Proof.
  intros H. induction before as [|c before IH]; simpl; [exact H|].
  rewrite IH. apply orb_true_r.
Qed.

Lemma contains_self (needle : string) : contains needle needle = true.
Proof.
  rewrite contains_unfold.
  assert (H : startswith needle needle = true).
  { apply startswith_append. exists "". induction needle; simpl; congruence. }
  rewrite H. reflexivity.
Qed.

End TextFacts.

(** ** Properties of the docstring parser *)

Module DocstringFacts.
Import Py Text Docstring PyFacts TextFacts.



Lemma parse_line_marker (st : ParseState) (raw : string) :
  is_args_marker (strip raw) = true -> parse_line st raw = inr (enter_args st).
Proof. unfold parse_line. intros ->. reflexivity. Qed.

Lemma parse_line_outside (st : ParseState) (raw : string) :
  is_args_marker (strip raw) = false -> in_args_section st = false ->
  parse_line st raw =
  inr (mkParseState (description st ++ [strip raw]) (arg_descriptions st)
         (current_param st) false).
Proof. unfold parse_line. intros -> ->. reflexivity. Qed.





(** *** Docstrings without an Args section *)

Lemma parse_lines_outside (lines : list string) (st : ParseState) :
  Forall (fun raw => is_args_marker (strip raw) = false) lines ->
  in_args_section st = false ->
  parse_lines st lines =
  inr (mkParseState (description st ++ map strip lines) (arg_descriptions st)
         (current_param st) false).
Proof.
  intros Hlines. revert st.
  induction Hlines as [|raw rest Hraw _ IH]; intros st Hout; simpl.
  - rewrite app_nil_r. destruct st; simpl in *. subst. reflexivity.
  - rewrite (parse_line_outside _ _ Hraw Hout), IH by reflexivity.
    simpl. rewrite <- app_assoc. reflexivity.
Qed.

(** Some run of two spaces occurs in [s]. *)
Definition has_double_space (s : string) : bool := contains "  " s.

Definition docstring_C5 : string :=
  "Summary line." ++ String newline (String newline "More.").

(** C5, as stated, fails: the docstring "Summary line.\n\nMore." has no
    Args line, and its summary has two consecutive spaces where the blank
    line was. *)
Lemma blank_line_doubles_space :
  forallb (fun raw => negb (is_args_marker (strip raw)))
    (split newline docstring_C5) = true /\
  parse_docstring docstring_C5 = inr ("Summary line.  More.", []) /\
  has_double_space "Summary line.  More." = true.
Proof. repeat split. Qed.

(** C5, amended: for a docstring none of whose lines begins, once trimmed
    and lower-cased, with "args:", the per-parameter mapping is empty and
    the summary is the lines of the text, each trimmed, joined by single
    spaces and the result trimmed; a blank line is an empty entry of the
    join, so that the summary can hold runs of spaces. *)
Theorem no_args_section_summary (docstring : string) :
  Forall (fun raw => is_args_marker (strip raw) = false) (split newline docstring) ->
  parse_docstring docstring =
  inr (strip (join " " (map strip (split newline docstring))), []).
Proof.
  intros Hlines. unfold parse_docstring.
  rewrite (parse_lines_outside _ _ Hlines) by reflexivity. reflexivity.
Qed.

Lemma no_args_section_summary_witness :
  parse_docstring docstring_C5 = inr ("Summary line.  More.", []).
Proof.
  rewrite (no_args_section_summary docstring_C5); [reflexivity|].
  repeat constructor.
Defined.

(** *** The parser raises nothing *)

(** The current parameter, once there is one, has an entry. *)
Definition param_recorded (st : ParseState) : Prop :=
  forall param, current_param st = Some param ->
                dict_has param (arg_descriptions st) = true.

Lemma parse_line_total (st : ParseState) (raw : string) :
  param_recorded st ->
  exists st', parse_line st raw = inr st' /\ param_recorded st'.
Proof.
  intros Hrec. unfold parse_line.
  destruct (is_args_marker (strip raw)); [eexists; split; [reflexivity|exact Hrec]|].
  destruct (in_args_section st); simpl;
    [|eexists; split; [reflexivity|exact Hrec]].
  destruct (contains_char colon (strip raw)).
  - destruct (split_once colon (strip raw)) as [name text].
    eexists; split; [reflexivity|].
    intros param [= <-]. apply dict_has_set_same.
  - destruct (current_param st) as [param|] eqn:Hcur;
      [|eexists; split; [reflexivity|exact Hrec]].
    destruct (negb (String.eqb param "") && negb (String.eqb (strip raw) ""));
      [|eexists; split; [reflexivity|exact Hrec]].
    unfold continue_param. pose proof (Hrec param Hcur) as Hhas.
    unfold dict_has in Hhas.
    destruct (dict_get param (arg_descriptions st)) as [text|] eqn:Hget;
      [|discriminate].
    eexists; split; [reflexivity|].
    intros q Hq. simpl in *. apply dict_has_set_kept, Hrec. congruence.
Qed.

Lemma parse_lines_total (lines : list string) (st : ParseState) :
  param_recorded st -> exists st', parse_lines st lines = inr st'.
Proof.
  revert st. induction lines as [|raw rest IH]; intros st Hrec; simpl.
  - exists st. reflexivity.
  - destruct (parse_line_total st raw Hrec) as [st' [-> Hrec']].
    apply IH, Hrec'.
Qed.

Lemma parse_docstring_total (docstring : string) :
  exists summary per_parameter,
    parse_docstring docstring = inr (summary, per_parameter).
Proof.
  unfold parse_docstring.
  destruct (parse_lines_total (split newline docstring) initial_state) as [st ->].
  - intros param. discriminate.
  - eexists _, _. reflexivity.
Qed.

End DocstringFacts.

(** ** Properties of the converter *)

Module SchemaFacts.
Import Py Text Docstring Schema PyFacts TextFacts DocstringFacts.

(** *** Reading a schema *)

(** [schema["function"]["parameters"]] *)
Definition schema_parameters (result : Value) : option Value :=
  match value_at "function" result with
  | Some fn => value_at "parameters" fn
  | None => None
  end.

(** [schema["function"]["parameters"]["required"]] *)
Definition schema_required (result : Value) : option Value :=
  match schema_parameters result with
  | Some parameters => value_at "required" parameters
  | None => None
  end.

(** [schema["function"]["parameters"]["properties"]] *)
Definition schema_properties (result : Value) : option Value :=
  match schema_parameters result with
  | Some parameters => value_at "properties" parameters
  | None => None
  end.

(** [schema["function"]["parameters"]["properties"][name]["type"]] *)
Definition schema_param_type (result : Value) (name : string) : option Value :=
  match schema_properties result with
  | Some properties =>
      match value_at name properties with
      | Some info => value_at "type" info
      | None => None
      end
  | None => None
  end.

(** [inspect.getdoc(func) or ""] *)
Definition docstring_of (func : Callable) : string :=
  match fn_doc func with Some doc => doc | None => "" end.

Definition names (params : list Param) : list string := map param_name params.

(** The parameter has no default. *)
Definition has_no_default (p : Param) : bool :=
  match param_default p with NoDefault => true | _ => false end.

Definition has_default (p : Param) : bool := negb (has_no_default p).

(** The names of the parameters without a default, in signature order. *)
Definition required_names (params : list Param) : list string :=
  names (filter has_no_default params).

(** The test of the source: the default compares equal to
    [inspect.Parameter.empty]. *)
Definition is_listed (p : Param) : bool :=
  match default_is_empty (param_default p) with
  | inr true => true
  | _ => false
  end.

Definition listed_names (params : list Param) : list string :=
  names (filter is_listed params).

(** *** The loop over the parameters *)

(** What one iteration does to the two locals, when it raises nothing. *)
Lemma add_parameter_inv (type_hints : list (string * PyType))
    (arg_descriptions : list (string * string)) (parameters : Dict)
    (required : list string) (param : Param) (parameters' : Dict)
    (required' : list string) :
  add_parameter type_hints arg_descriptions parameters required param
  = inr (parameters', required') ->
  exists text,
    checked_param_type type_hints param = inr text /\
    parameters' =
    dict_set (param_name param)
      (VDict (("type", VStr text) ::
              match dict_get (param_name param) arg_descriptions with
              | Some described => [("description", VStr described)]
              | None => []
              end))
      parameters /\
    required' = required ++ listed_names [param].
Proof.
  unfold add_parameter, listed_names, is_listed.
  destruct (checked_param_type type_hints param) as [r|text]; [discriminate|].
  cbn [filter].
  destruct (default_is_empty (param_default param)) as [e|[|]]; [discriminate| |];
    (destruct arg_descriptions as [|entry others];
     [|destruct (dict_get (param_name param) (entry :: others))]);
    intros [= <- <-]; exists text; simpl; rewrite ?app_nil_r; repeat split.
Qed.

Lemma listed_names_cons (p : Param) (params : list Param) :
  listed_names (p :: params) = listed_names [p] ++ listed_names params.
Proof.
  unfold listed_names, names. simpl. destruct (is_listed p); reflexivity.
Qed.

Lemma add_parameters_inv (type_hints : list (string * PyType))
    (arg_descriptions : list (string * string)) (params : list Param) :
  forall (parameters : Dict) (required : list string) (parameters' : Dict)
         (required' : list string),
  add_parameters type_hints arg_descriptions params parameters required
  = inr (parameters', required') ->
  required' = required ++ listed_names params /\
  (forall k, In k (keys parameters') <-> In k (keys parameters) \/ In k (names params)) /\
  (NoDup (keys parameters ++ names params) ->
   keys parameters' = keys parameters ++ names params) /\
  (forall k, ~ In k (names params) -> dict_get k parameters' = dict_get k parameters).
Proof.
  induction params as [|p rest IH]; intros parameters required parameters' required';
    simpl.
  - intros [= <- <-]. rewrite !app_nil_r. repeat split; tauto.
  - destruct (add_parameter type_hints arg_descriptions parameters required p)
      as [e|[parameters1 required1]] eqn:Hstep; [discriminate|].
    apply add_parameter_inv in Hstep.
    destruct Hstep as [text [_ [-> ->]]].
    intros Hrest. apply IH in Hrest.
    destruct Hrest as [-> [Hkeys [Horder Hother]]].
    split; [|split; [|split]].
    + rewrite (listed_names_cons p rest), app_assoc. reflexivity.
    + intros k. rewrite Hkeys, keys_dict_set_in. simpl. intuition congruence.
    + intros Hnodup.
      assert (Hnew : ~ In (param_name p) (keys parameters)).
      { intros Hin. apply NoDup_remove_2 in Hnodup.
        apply Hnodup, in_or_app. left. exact Hin. }
      rewrite Horder; rewrite (keys_dict_set_new _ _ _ Hnew).
      * rewrite <- app_assoc. reflexivity.
      * rewrite <- app_assoc. simpl.
        apply NoDup_Add with (a := param_name p) (l := keys parameters ++ names rest).
        -- apply Add_app.
        -- split; [apply (NoDup_remove_1 _ _ _ Hnodup)
                  |apply (NoDup_remove_2 _ _ _ Hnodup)].
    + intros k Hk. rewrite Hother by tauto.
      apply dict_get_set_other. intros ->. apply Hk. left. reflexivity.
Qed.

(** The property the loop leaves for a parameter. *)
Lemma add_parameters_info (type_hints : list (string * PyType))
    (arg_descriptions : list (string * string)) (params : list Param) (p : Param) :
  NoDup (names params) -> In p params ->
  forall (parameters : Dict) (required : list string) (parameters' : Dict)
         (required' : list string),
  add_parameters type_hints arg_descriptions params parameters required
  = inr (parameters', required') ->
  exists text,
    checked_param_type type_hints p = inr text /\
    dict_get (param_name p) parameters' =
    Some (VDict (("type", VStr text) ::
                 match dict_get (param_name p) arg_descriptions with
                 | Some described => [("description", VStr described)]
                 | None => []
                 end)).
Proof.
  unfold names. induction params as [|q rest IH]; simpl; [intros _ []|].
  intros Hnodup Hin parameters required parameters' required'.
  pose proof (NoDup_cons_iff (param_name q) (map param_name rest)) as [Hsplit _].
  destruct (Hsplit Hnodup) as [Hfresh Hrest].
  destruct (add_parameter type_hints arg_descriptions parameters required q)
    as [e|[parameters1 required1]] eqn:Hstep; [discriminate|].
  intros Hloop.
  destruct Hin as [->|Hin]; [|apply (IH Hrest Hin _ _ _ _ Hloop)].
  apply add_parameter_inv in Hstep. destruct Hstep as [text [Htext [-> _]]].
  apply add_parameters_inv in Hloop. destruct Hloop as [_ [_ [_ Hother]]].
  exists text. split; [exact Htext|].
  rewrite (Hother _ Hfresh). apply dict_get_set_same.
Qed.

(** What [function_to_json] went through when it returned a schema. *)
Lemma function_to_json_inv (func : Callable) (params : list Param) (result : Value) :
  fn_signature func = inr params ->
  function_to_json func = inr result ->
  exists summary per_parameter type_hints parameters required name,
    parse_docstring (docstring_of func) = inr (summary, per_parameter) /\
    get_type_hints func = inr type_hints /\
    add_parameters type_hints per_parameter params [] [] = inr (parameters, required) /\
    fn_name func = inr name /\
    result = schema name summary parameters required.
Proof.
  intros Hsig. unfold function_to_json, docstring_of. rewrite Hsig.
  destruct (parse_docstring _) as [kind|[summary per_parameter]]; [discriminate|].
  destruct (get_type_hints func) as [e|type_hints]; [discriminate|].
  destruct (add_parameters type_hints per_parameter params [] [])
    as [e|[parameters required]] eqn:Hloop; [discriminate|].
  destruct (fn_name func) as [e|name]; [discriminate|].
  intros [= <-].
  exists summary, per_parameter, type_hints, parameters, required, name.
  split; [reflexivity|]. split; [reflexivity|]. split; [exact Hloop|].
  split; reflexivity.
Qed.

(** *** The required parameters *)

(** [def notify(user, channel=unittest.mock.ANY)]: the default of
    [channel] compares equal to everything. *)
Definition notify : Callable :=
  mkCallable (inr "notify") None
    (inr [mkParam "user" None NoDefault;
          mkParam "channel" None (DefaultObject (inr true))])
    (inr []).

(** C1: the code departs from the claim on a parameter whose default
    compares equal to [inspect.Parameter.empty]: [channel] below has a
    default, and [required] lists it. *)
Theorem default_equal_to_empty_is_required :
  has_default (mkParam "channel" None (DefaultObject (inr true))) = true /\
  function_to_json notify =
    inr (schema "notify" ""
           [("user", VDict [("type", VStr "string")]);
            ("channel", VDict [("type", VStr "string")])]
           ["user"; "channel"]) /\
  schema_required
    (schema "notify" ""
       [("user", VDict [("type", VStr "string")]);
        ("channel", VDict [("type", VStr "string")])]
       ["user"; "channel"]) =
  Some (VList [VStr "user"; VStr "channel"]).
Proof. repeat split. Qed.

Lemma listed_is_no_default (params : list Param) :
  (forall p, In p params -> param_default p <> DefaultObject (inr true)) ->
  listed_names params = required_names params.
Proof.
  unfold listed_names, required_names. intros Hplain. f_equal.
  induction params as [|p rest IH]; [reflexivity|].
  assert (Hp : is_listed p = has_no_default p).
  { unfold is_listed, has_no_default.
    pose proof (Hplain p (or_introl eq_refl)) as Hne.
    destruct (param_default p) as [| |[e|[|]]]; simpl; congruence. }
  simpl. rewrite Hp, IH; [reflexivity|].
  intros q Hq. apply Hplain. right. exact Hq.
Qed.

Lemma required_count (params : list Param) :
  List.length (required_names params) =
  List.length params - List.length (filter has_default params).
Proof.
  unfold required_names, names, has_default. rewrite length_map.
  assert (Hsum : List.length (filter has_no_default params)
                 + List.length (filter (fun p => negb (has_no_default p)) params)
                 = List.length params).
  { induction params as [|p rest IH]; simpl; [reflexivity|].
    destruct (has_no_default p); simpl; lia. }
  lia.
Qed.

Lemma required_names_incl (params : list Param) (name : string) :
  In name (required_names params) -> In name (names params).
Proof.
  unfold required_names, names. rewrite !in_map_iff.
  intros [p [Hname Hin]]. exists p. split; [exact Hname|].
  apply filter_In in Hin. tauto.
Qed.

(** *** Failures *)

(** C7: the code departs from the claim on a callable without a
    [__name__]: when [inspect.signature] raises [ValueError], the handler
    reads [func.__name__] to build its message, and the exception of that
    access is what leaves [function_to_json], whatever the cause was. *)
Theorem nameless_callable_hides_signature_error (missing : Exn) (cause : string)
    (doc : option string) (hints : Exn + list (string * PyType)) :
  function_to_json (mkCallable (inl missing) doc (inl (mkExn ValueError cause)) hints)
  = inl (Propagate missing).
Proof. reflexivity. Qed.





(** *** Parameters without a type hint *)



Lemma no_hint_is_string (type_hints : list (string * PyType)) (p : Param) :
  dict_get (param_name p) type_hints = None ->
  checked_param_type type_hints p = inr "string".
Proof.
  intros Hnone. unfold checked_param_type, param_type_str.
  rewrite Hnone. reflexivity.
Qed.



End SchemaFacts.

(** ** Properties of the merger *)

Module MergerFacts.
Import Py Merger PyFacts.

Lemma merge_item_dict (target : Value) (key : string) (d : Dict) :
  merge_item target key (VDict d) =
  match getitem target key with
  | inl e => (target, Some e)
  | inr sub =>
      let '(sub', r) := merge_fields sub d in (setitem target key sub', r)
  end.
Proof. reflexivity. Qed.

(** *** dicts and lists under update *)

Lemma key_sets_dict (d : Dict) :
  key_sets (VDict d) = ([], keys d) :: items_key_sets d.
Proof. reflexivity. Qed.

Lemma key_sets_list (l : list Value) :
  key_sets (VList l) = elems_key_sets 0 l.
Proof. reflexivity. Qed.

Lemma items_key_sets_set (k : string) (v v' : Value) (d : Dict) :
  dict_get k d = Some v -> key_sets v' = key_sets v ->
  items_key_sets (dict_set k v' d) = items_key_sets d.
Proof.
  intros Hget Hsame. induction d as [|[k' x] rest IH]; simpl in *; [discriminate|].
  destruct (String.eqb k k'); simpl.
  - injection Hget as ->. rewrite Hsame. reflexivity.
  - rewrite IH by assumption. reflexivity.
Qed.

Lemma elems_key_sets_chars (i : nat) (s : string) :
  elems_key_sets i (chars s) = [].
Proof.
  revert i. induction s as [|c rest IH]; intros i; simpl; [reflexivity|].
  apply IH.
Qed.

Lemma elems_key_sets_app (i : nat) (l m : list Value) :
  elems_key_sets i (l ++ m) =
  elems_key_sets i l ++ elems_key_sets (i + List.length l) m.
Proof.
  revert i. induction l as [|x rest IH]; intros i; simpl.
  - rewrite Nat.add_0_r. reflexivity.
  - rewrite IH, <- app_assoc. do 3 f_equal. lia.
Qed.

Lemma elems_key_sets_set (i n : nat) (v v' : Value) (l : list Value) :
  nth_error l n = Some v -> key_sets v' = key_sets v ->
  elems_key_sets i (list_set l n v') = elems_key_sets i l.
Proof.
  revert i n. induction l as [|x rest IH]; intros i [|n]; simpl;
    try discriminate; intros Hnth Hsame.
  - injection Hnth as ->. rewrite Hsame. reflexivity.
  - rewrite (IH _ _ Hnth Hsame). reflexivity.
Qed.

Lemma key_sets_setitem (target : Value) (key : string) (v v' : Value) :
  getitem target key = inr v -> key_sets v' = key_sets v ->
  key_sets (setitem target key v') = key_sets target.
Proof.
  destruct target; simpl; try discriminate.
  destruct (dict_get key d) as [x|] eqn:Hget; [|discriminate].
  intros [= ->] Hsame.
  change (key_sets (VDict (dict_set key v' d)) = key_sets (VDict d)).
  rewrite !key_sets_dict, (keys_dict_set _ _ _ _ Hget),
    (items_key_sets_set _ _ _ _ Hget Hsame).
  reflexivity.
Qed.

Lemma key_sets_subscript_update (container index v v' : Value) :
  subscript container index = inr v -> key_sets v' = key_sets v ->
  key_sets (subscript_update container index v') = key_sets container.
Proof.
  destruct container; simpl; try reflexivity.
  - destruct (as_int index) as [n|]; [|reflexivity].
    destruct (seq_index (List.length l) n) as [i|]; [|reflexivity].
    destruct (nth_error l i) as [x|] eqn:Hnth; [|discriminate].
    intros [= ->] Hsame.
    change (key_sets (VList (list_set l i v')) = key_sets (VList l)).
    rewrite !key_sets_list. apply (elems_key_sets_set _ _ _ _ _ Hnth Hsame).
  - destruct index; try reflexivity.
    unfold dict_has.
    destruct (dict_get s d) as [x|] eqn:Hget; [|reflexivity].
    intros [= ->] Hsame.
    change (key_sets (VDict (dict_set s v' d)) = key_sets (VDict d)).
    rewrite !key_sets_dict, (keys_dict_set _ _ _ _ Hget),
      (items_key_sets_set _ _ _ _ Hget Hsame).
    reflexivity.
Qed.

(** *** The merge adds no key *)

Lemma iadd_str_key_sets (target : Value) (key value : string) :
  key_sets (fst (iadd_str target key value)) = key_sets target.
Proof.
  unfold iadd_str.
  destruct (getitem target key) as [e|cur] eqn:Hget; [reflexivity|].
  destruct cur; try reflexivity; simpl fst;
    apply (key_sets_setitem _ _ _ _ Hget).
  - reflexivity.
  - rewrite !key_sets_list, elems_key_sets_app, elems_key_sets_chars.
    apply app_nil_r.
Qed.

Definition keeps_key_sets (value : Value) : Prop :=
  forall target key, key_sets (fst (merge_item target key value)) = key_sets target.

Lemma merge_fields_key_sets_from (source : Dict) :
  Forall (fun item => keeps_key_sets (snd item)) source ->
  forall target, key_sets (fst (merge_fields target source)) = key_sets target.
Proof.
  induction 1 as [|[k v] rest Hv _ IH]; intros target; simpl; [reflexivity|].
  specialize (Hv target k). simpl in Hv.
  destruct (merge_item target k v) as [t' [e|]]; simpl in *.
  - exact Hv.
  - rewrite IH. exact Hv.
Qed.

Lemma merge_item_key_sets (value : Value) : keeps_key_sets value.
Proof.
  induction value using Value_ind; intros target key; try reflexivity.
  - apply iadd_str_key_sets.
  - rewrite merge_item_dict.
    destruct (getitem target key) as [e|sub] eqn:Hget; [reflexivity|].
    pose proof (merge_fields_key_sets_from d H sub) as Hsub.
    destruct (merge_fields sub d) as [sub' r]; simpl in *.
    apply (key_sets_setitem _ _ _ _ Hget Hsub).
Qed.

Lemma merge_fields_key_sets (target : Value) (source : Dict) :
  key_sets (fst (merge_fields target source)) = key_sets target.
Proof.
  apply merge_fields_key_sets_from, Forall_forall.
  intros item _. apply merge_item_key_sets.
Qed.

Lemma merge_tool_call_key_sets (acc : Value) (delta : Dict) (tool_calls : Value) :
  key_sets (out_response (merge_tool_call acc delta tool_calls)) = key_sets acc.
Proof.
  unfold merge_tool_call.
  destruct tool_calls as [| | | |[|first others]|]; try reflexivity.
  destruct (pop_index first) as [e|[index first']]; [reflexivity|].
  destruct (getitem acc "tool_calls") as [e|calls] eqn:Hcalls; [reflexivity|].
  destruct (subscript calls index) as [e|slot] eqn:Hslot; [reflexivity|].
  pose proof (merge_fields_key_sets slot first') as Hsame.
  destruct (merge_fields slot first') as [slot' r]; simpl in *.
  apply (key_sets_setitem _ _ _ _ Hcalls).
  apply (key_sets_subscript_update _ _ _ _ Hslot Hsame).
Qed.

Lemma merge_chunk_key_sets (final_response : Value) (delta : Dict) :
  key_sets (out_response (merge_chunk final_response delta)) =
  key_sets final_response.
Proof.
  unfold merge_chunk.
  pose proof (merge_fields_key_sets final_response (dict_pop "role" delta)) as Hsame.
  destruct (merge_fields final_response (dict_pop "role" delta)) as [acc [e|]];
    simpl in *; [exact Hsame|].
  destruct (dict_get "tool_calls" (dict_pop "role" delta)) as [tool_calls|];
    [|exact Hsame].
  destruct (truthy tool_calls); [|exact Hsame].
  rewrite merge_tool_call_key_sets. exact Hsame.
Qed.

Definition accumulator_C2 : Value :=
  VDict [("content", VStr "Hel");
         ("tool_calls", VList [VDict [("name", VStr "")]])].

Definition delta_C2 : Dict :=
  [("content", VStr "lo");
   ("tool_calls", VList [VDict [("index", VInt 0); ("name", VStr "add")]])].

(** C2: merging the delta {"content": "lo", "tool_calls": [{"index": 0,
    "name": "add"}]} into the accumulator {"content": "Hel", "tool_calls":
    [{"name": ""}]} raises nothing and leaves the accumulator equal to
    {"content": "Hello", "tool_calls": [{"name": "add"}]}; the [index] field
    of the first tool-call fragment is consumed. *)
Theorem merge_chunk_scenario :
  merge_chunk accumulator_C2 delta_C2 =
  mkOutcome
    (VDict [("content", VStr "Hello");
            ("tool_calls", VList [VDict [("name", VStr "add")]])])
    [("content", VStr "lo");
     ("tool_calls", VList [VDict [("name", VStr "add")]])]
    None.
Proof. reflexivity. Qed.

(** C10: a [merge_chunk] call that completes without error adds no key to
    the accumulator at any nesting level: every mapping nested in the
    accumulator, each tool-call element included, has after the call the keys
    it had before, and no mapping has appeared. *)
Theorem merge_chunk_adds_no_key (final_response : Value) (delta : Dict) :
  out_raised (merge_chunk final_response delta) = None ->
  key_sets (out_response (merge_chunk final_response delta)) =
  key_sets final_response.
Proof. intros _. apply merge_chunk_key_sets. Qed.

Lemma merge_chunk_adds_no_key_witness :
  out_raised (merge_chunk accumulator_C2 delta_C2) = None /\
  key_sets (out_response (merge_chunk accumulator_C2 delta_C2)) =
  [([], ["content"; "tool_calls"]);
   ([AtKey "tool_calls"; AtIndex 0], ["name"])].
Proof.
  split; [reflexivity|].
  rewrite (merge_chunk_adds_no_key accumulator_C2 delta_C2); reflexivity.
Defined.

(** *** What the generic path leaves alone *)

Lemma value_at_setitem_other (k key : string) (v target : Value) :
  k <> key -> value_at k (setitem target key v) = value_at k target.
Proof.
  intros Hne. destruct target; try reflexivity.
  apply dict_get_set_other, Hne.
Qed.

Lemma merge_item_other_key (target : Value) (k key : string) (value : Value) :
  k <> key -> value_at k (fst (merge_item target key value)) = value_at k target.
Proof.
  intros Hne. destruct value; try reflexivity.
  - simpl. unfold iadd_str.
    destruct (getitem target key) as [e|[]]; try reflexivity;
      apply value_at_setitem_other, Hne.
  - rewrite merge_item_dict.
    destruct (getitem target key) as [e|sub]; [reflexivity|].
    destruct (merge_fields sub d) as [sub' r].
    apply value_at_setitem_other, Hne.
Qed.

Lemma merge_item_inert (target : Value) (key : string) (value : Value) :
  is_str value = false -> is_dict value = false ->
  merge_item target key value = (target, None).
Proof. destruct value; simpl; intros; congruence. Qed.

(** C9: the generic merge path leaves the accumulator's value under a key
    as it was when the delta's value under that key is neither a string nor
    a mapping (a number, a boolean, null or a list), whether or not the merge
    raises on another key. *)
Theorem merge_fields_leaves_other_types (target : Value) (source : Dict) (k : string) :
  (forall v, In (k, v) source -> is_str v = false /\ is_dict v = false) ->
  value_at k (fst (merge_fields target source)) = value_at k target.
Proof.
  revert target. induction source as [|[key value] rest IH]; intros target Hk;
    simpl; [reflexivity|].
  assert (Hrest : forall v, In (k, v) rest -> is_str v = false /\ is_dict v = false)
    by (intros v Hin; apply Hk; right; exact Hin).
  destruct (String.eqb_spec k key) as [->|Hne].
  - destruct (Hk value) as [Hs Hd]; [left; reflexivity|].
    rewrite (merge_item_inert _ _ _ Hs Hd). apply IH, Hrest.
  - pose proof (merge_item_other_key target k key value Hne) as Hstep.
    destruct (merge_item target key value) as [t' [e|]]; simpl in *.
    + exact Hstep.
    + rewrite IH by exact Hrest. exact Hstep.
Qed.

Lemma merge_fields_leaves_other_types_witness :
  value_at "count"
    (fst (merge_fields
            (VDict [("content", VStr "ab"); ("count", VInt 1)])
            [("content", VStr "c"); ("count", VInt 2)])) =
  Some (VInt 1).
Proof.
  rewrite merge_fields_leaves_other_types; [reflexivity|].
  simpl. intros v [H|[H|[]]]; inversion H; subst; split; reflexivity.
Defined.

(** *** What becomes of the delta *)

(** The delta without the [index] field of its first tool call. *)
Definition drop_index (delta : Dict) : Dict :=
  match dict_get "tool_calls" delta with
  | Some (VList (VDict first :: others)) =>
      if dict_has "index" first
      then dict_set "tool_calls" (VList (VDict (dict_pop "index" first) :: others)) delta
      else delta
  | _ => delta
  end.

Definition accumulator_C3 : Value :=
  VDict [("content", VStr "Hel");
         ("tool_calls", VList [VDict [("name", VStr "")]])].

Definition delta_C3 : Dict :=
  [("role", VStr "assistant");
   ("content", VStr "lo");
   ("tool_calls", VList [VDict [("index", VInt 0); ("name", VStr "add")]])].

(** C3, as stated, fails: the call below raises nothing and leaves the delta
    without its [role] field and without the [index] field of its first tool
    call. *)
Lemma merge_chunk_mutates_delta :
  out_raised (merge_chunk accumulator_C3 delta_C3) = None /\
  out_delta (merge_chunk accumulator_C3 delta_C3) =
    [("content", VStr "lo");
     ("tool_calls", VList [VDict [("name", VStr "add")]])] /\
  out_delta (merge_chunk accumulator_C3 delta_C3) <> delta_C3.
Proof. repeat split. discriminate. Qed.

(** C3, amended: besides its accumulator, [merge_chunk] mutates the delta in
    two places only.  A call that completes leaves the delta as it was but for
    its top-level [role] field and the [index] field of its first tool call,
    both removed; a call that raises has removed [role], and [index] when it
    got as far as to pop it. *)
Theorem merge_chunk_delta_after (final_response : Value) (delta : Dict) :
  match out_raised (merge_chunk final_response delta) with
  | None =>
      out_delta (merge_chunk final_response delta) =
      drop_index (dict_pop "role" delta)
  | Some _ =>
      out_delta (merge_chunk final_response delta) = dict_pop "role" delta \/
      out_delta (merge_chunk final_response delta) =
      drop_index (dict_pop "role" delta)
  end.
Proof.
  unfold merge_chunk, drop_index.
  destruct (merge_fields final_response (dict_pop "role" delta)) as [acc [e|]];
    simpl; [left; reflexivity|].
  destruct (dict_get "tool_calls" (dict_pop "role" delta)) as [tool_calls|];
    [|reflexivity].
  destruct tool_calls as [|[]|n|s|[|first others]|[|item d]]; simpl;
    try reflexivity; try (left; reflexivity).
  - destruct (Z.eqb n 0); simpl; [reflexivity|left; reflexivity].
  - destruct (String.eqb s ""); simpl; [|left; reflexivity].
    reflexivity.
  - unfold pop_index, dict_has.
    destruct first as [| | | | |f]; simpl; try (left; reflexivity).
    destruct (dict_get "index" f) as [index|]; simpl; [|left; reflexivity].
    destruct (getitem acc "tool_calls") as [e|calls]; simpl; [right; reflexivity|].
    destruct (subscript calls index) as [e|slot]; simpl; [right; reflexivity|].
    destruct (merge_fields slot (dict_pop "index" f)) as [slot' [e|]]; simpl;
      [right; reflexivity|reflexivity].
Qed.

End MergerFacts.

(** ** Further properties of the merger *)

Module MergerMore.
Import Py Merger PyFacts MergerFacts.

Lemma str_append_empty (s : string) : (s ++ "")%string = s.
Proof. induction s as [|c s IH]; simpl; congruence. Qed.

Lemma str_append_assoc (a b c : string) :
  ((a ++ b) ++ c)%string = (a ++ (b ++ c))%string.
Proof. induction a as [|x a IH]; simpl; congruence. Qed.

(** *** Keys and items of a dict without repeated keys *)

Lemma dict_get_in {A : Type} (k : string) (v : A) (d : list (string * A)) :
  dict_get k d = Some v -> In (k, v) d.
Proof.
  induction d as [|[k' v'] rest IH]; simpl; [discriminate|].
  destruct (String.eqb_spec k k') as [->|Hne].
  - intros [= ->]. left. reflexivity.
  - intros H. right. apply IH, H.
Qed.

Lemma in_dict_get {A : Type} (k : string) (v : A) (d : list (string * A)) :
  NoDup (keys d) -> In (k, v) d -> dict_get k d = Some v.
Proof.
  unfold keys. induction d as [|[k' v'] rest IH]; simpl; [intros _ []|].
  intros Hnodup Hin.
  pose proof (NoDup_cons_iff k' (map fst rest)) as [Hsplit _].
  destruct (Hsplit Hnodup) as [Hfresh Hrest].
  destruct Hin as [[= -> ->]|Hin].
  - rewrite String.eqb_refl. reflexivity.
  - destruct (String.eqb_spec k k') as [->|Hne]; [|apply IH; assumption].
    exfalso. apply Hfresh. apply (in_map fst) in Hin. exact Hin.
Qed.

Lemma dict_pop_keys_incl {A : Type} (k key : string) (d : list (string * A)) :
  In k (keys (dict_pop key d)) -> In k (keys d).
Proof.
  unfold keys. induction d as [|[k' v'] rest IH]; simpl; [intros []|].
  destruct (String.eqb key k'); simpl; [right; assumption|].
  intros [H|H]; [left; exact H|right; apply IH, H].
Qed.

Lemma dict_pop_removes {A : Type} (k : string) (d : list (string * A)) :
  NoDup (keys d) -> ~ In k (keys (dict_pop k d)).
Proof.
  unfold keys. induction d as [|[k' v'] rest IH]; simpl; [intros _ []|].
  intros Hnodup.
  pose proof (NoDup_cons_iff k' (map fst rest)) as [Hsplit _].
  destruct (Hsplit Hnodup) as [Hfresh Hrest].
  destruct (String.eqb_spec k k') as [->|Hne]; [exact Hfresh|].
  simpl. intros [H|H]; [congruence|apply (IH Hrest H)].
Qed.

Lemma dict_pop_nodup {A : Type} (k : string) (d : list (string * A)) :
  NoDup (keys d) -> NoDup (keys (dict_pop k d)).
Proof.
  unfold keys. induction d as [|[k' v'] rest IH]; simpl; [trivial|].
  intros Hnodup.
  pose proof (NoDup_cons_iff k' (map fst rest)) as [Hsplit _].
  destruct (Hsplit Hnodup) as [Hfresh Hrest].
  destruct (String.eqb k k'); [exact Hrest|].
  simpl. constructor; [|apply IH, Hrest].
  intros Hin. apply Hfresh. apply (dict_pop_keys_incl _ k), Hin.
Qed.

Lemma dict_get_pop_other {A : Type} (k key : string) (d : list (string * A)) :
  k <> key -> dict_get k (dict_pop key d) = dict_get k d.
Proof.
  intros Hne. induction d as [|[k' v'] rest IH]; simpl; [reflexivity|].
  destruct (String.eqb_spec key k') as [->|Hk]; simpl.
  - destruct (String.eqb_spec k k'); congruence.
  - rewrite IH. reflexivity.
Qed.

Lemma in_dict_pop_other {A : Type} (k key : string) (v : A) (d : list (string * A)) :
  k <> key -> In (k, v) d -> In (k, v) (dict_pop key d).
Proof.
  intros Hne. induction d as [|[k' v'] rest IH]; simpl; [trivial|].
  destruct (String.eqb_spec key k') as [->|Hk].
  - intros [[= -> ->]|Hin]; [congruence|exact Hin].
  - intros [Heq|Hin]; [left; exact Heq|right; apply IH, Hin].
Qed.

(** *** One key at a time *)

Lemma value_at_getitem (k : string) (target v : Value) :
  value_at k target = Some v -> getitem target k = inr v.
Proof.
  destruct target; simpl; try discriminate. intros ->. reflexivity.
Qed.

Lemma value_at_none_getitem (k : string) (target : Value) :
  value_at k target = None -> exists e, getitem target k = inl e.
Proof.
  destruct target; simpl; try (intros _; eexists; reflexivity).
  intros ->. eexists. reflexivity.
Qed.

Lemma value_at_setitem_same (k : string) (target v cur : Value) :
  value_at k target = Some cur -> value_at k (setitem target k v) = Some v.
Proof.
  destruct target; simpl; try discriminate. intros _. apply dict_get_set_same.
Qed.

(** A key the source does not have is left as it was. *)
Lemma merge_fields_absent_key (source : Dict) (target : Value) (k : string) :
  ~ In k (keys source) ->
  value_at k (fst (merge_fields target source)) = value_at k target.
Proof.
  unfold keys. revert target.
  induction source as [|[key value] rest IH]; intros target Hk; simpl in *;
    [reflexivity|].
  assert (Hne : k <> key) by (intros ->; apply Hk; left; reflexivity).
  pose proof (merge_item_other_key target k key value Hne) as Hstep.
  destruct (merge_item target key value) as [t' [e|]]; simpl in *; [exact Hstep|].
  rewrite IH by tauto. exact Hstep.
Qed.

(** A key whose values in the source are all of the kinds the generic path
    skips is left as it was. *)
Lemma merge_fields_skips (source : Dict) (target : Value) (k : string) :
  (forall v, In (k, v) source -> is_str v = false /\ is_dict v = false) ->
  value_at k (fst (merge_fields target source)) = value_at k target.
Proof.
  revert target. induction source as [|[key value] rest IH]; intros target Hk;
    simpl; [reflexivity|].
  assert (Hrest : forall v, In (k, v) rest -> is_str v = false /\ is_dict v = false)
    by (intros v Hin; apply Hk; right; exact Hin).
  destruct (String.eqb_spec k key) as [->|Hne].
  - destruct (Hk value) as [Hs Hd]; [left; reflexivity|].
    rewrite (merge_item_inert _ _ _ Hs Hd). apply IH, Hrest.
  - pose proof (merge_item_other_key target k key value Hne) as Hstep.
    destruct (merge_item target key value) as [t' [e|]]; simpl in *;
      [exact Hstep|].
    rewrite IH by exact Hrest. exact Hstep.
Qed.

(** A value that is no dict is left as it is by any merge into it. *)
Lemma merge_fields_into_other (source : Dict) (target : Value) :
  is_dict target = false -> fst (merge_fields target source) = target.
Proof.
  intros Hkind. induction source as [|[key value] rest IH]; simpl; [reflexivity|].
  assert (Hstep : fst (merge_item target key value) = target).
  { destruct value; try reflexivity.
    - simpl. unfold iadd_str. destruct target; try reflexivity. discriminate.
    - rewrite merge_item_dict. destruct target; try reflexivity. discriminate. }
  destruct (merge_item target key value) as [t' [e|]]; simpl in *;
    [exact Hstep|].
  subst t'. exact IH.
Qed.

(** When the merge completes, the one item of the source under [k] was
    merged into a target that still held under [k] what it held at first, and
    nothing touched [k] afterwards. *)
Lemma merge_fields_at_key (source : Dict) (k : string) (v : Value) :
  NoDup (keys source) -> dict_get k source = Some v ->
  forall target target',
    merge_fields target source = (target', None) ->
    exists before after,
      value_at k before = value_at k target /\
      merge_item before k v = (after, None) /\
      value_at k target' = value_at k after.
Proof.
  unfold keys. induction source as [|[key value] rest IH]; simpl; [discriminate|].
  intros Hnodup Hget target target' Hmerge.
  pose proof (NoDup_cons_iff key (map fst rest)) as [Hsplit _].
  destruct (Hsplit Hnodup) as [Hfresh Hrest].
  destruct (merge_item target key value) as [t1 [e|]] eqn:Hstep; [discriminate|].
  destruct (String.eqb_spec k key) as [->|Hne].
  - injection Hget as ->. exists target, t1.
    split; [reflexivity|split; [exact Hstep|]].
    pose proof (merge_fields_absent_key rest t1 key Hfresh) as Hafter.
    rewrite Hmerge in Hafter. exact Hafter.
  - destruct (IH Hrest Hget t1 target' Hmerge) as [before [after [Hb [Hitem Ha]]]].
    exists before, after. split; [|split; assumption].
    rewrite Hb.
    pose proof (merge_item_other_key target k key value Hne) as Hother.
    rewrite Hstep in Hother. exact Hother.
Qed.

Lemma merge_tool_call_other_key (acc : Value) (delta : Dict) (tool_calls : Value)
    (k : string) :
  k <> "tool_calls" ->
  value_at k (out_response (merge_tool_call acc delta tool_calls)) = value_at k acc.
Proof.
  intros Hne. unfold merge_tool_call.
  destruct tool_calls as [| | | |[|first others]|]; try reflexivity.
  destruct (pop_index first) as [e|[index first']]; [reflexivity|].
  destruct (getitem acc "tool_calls") as [e|calls]; [reflexivity|].
  destruct (subscript calls index) as [e|slot]; [reflexivity|].
  destruct (merge_fields slot first') as [slot' r]; simpl.
  apply value_at_setitem_other, Hne.
Qed.

(** What [merge_chunk] leaves under a key other than [tool_calls] is what
    the generic path left there. *)
Lemma merge_chunk_generic_key (final_response : Value) (delta : Dict) (k : string) :
  k <> "tool_calls" ->
  value_at k (out_response (merge_chunk final_response delta)) =
  value_at k (fst (merge_fields final_response (dict_pop "role" delta))).
Proof.
  intros Hne. unfold merge_chunk.
  destruct (merge_fields final_response (dict_pop "role" delta)) as [acc [e|]];
    simpl; [reflexivity|].
  destruct (dict_get "tool_calls" (dict_pop "role" delta)) as [tool_calls|];
    [|reflexivity].
  destruct (truthy tool_calls); [|reflexivity].
  apply merge_tool_call_other_key, Hne.
Qed.

(** X1: the [role] of a delta is never merged: whatever the delta holds, the
    accumulator has after the call, under [role], what it had before, and
    nothing if it had nothing. *)
Theorem role_is_never_merged (final_response : Value) (delta : Dict) :
  NoDup (keys delta) ->
  value_at "role" (out_response (merge_chunk final_response delta)) =
  value_at "role" final_response.
Proof.
  intros Hnodup.
  rewrite merge_chunk_generic_key by discriminate.
  apply merge_fields_absent_key, dict_pop_removes, Hnodup.
Qed.

Lemma role_is_never_merged_witness :
  value_at "role"
    (out_response
       (merge_chunk (VDict [("content", VStr "")])
          [("role", VStr "assistant"); ("content", VStr "Hi")])) = None.
Proof.
  rewrite role_is_never_merged; [reflexivity|].
  repeat constructor; simpl; intuition discriminate.
Defined.

(** *** String fields *)

Lemma merge_item_str_at (target : Value) (k s a : string) :
  value_at k target = Some (VStr s) ->
  merge_item target k (VStr a) = (setitem target k (VStr (s ++ a)), None).
Proof.
  intros Hcur. simpl. unfold iadd_str.
  rewrite (value_at_getitem _ _ _ Hcur). reflexivity.
Qed.

(** X2: when a call completes, a string the delta holds under a key other
    than [role] has been appended to the string the accumulator held under
    that key. *)
Theorem string_field_is_appended (final_response : Value) (delta : Dict)
    (k s a : string) :
  NoDup (keys delta) ->
  k <> "role" ->
  dict_get k delta = Some (VStr a) ->
  value_at k final_response = Some (VStr s) ->
  out_raised (merge_chunk final_response delta) = None ->
  value_at k (out_response (merge_chunk final_response delta)) =
  Some (VStr (s ++ a)).
Proof.
  intros Hnodup Hrole Hget Hcur Hok.
  assert (Hgeneric :
            exists acc, merge_fields final_response (dict_pop "role" delta)
                        = (acc, None) /\
                        value_at k acc = Some (VStr (s ++ a))).
  { unfold merge_chunk in Hok.
    destruct (merge_fields final_response (dict_pop "role" delta))
      as [acc [e|]] eqn:Hmerge; [discriminate|].
    exists acc. split; [reflexivity|].
    destruct (merge_fields_at_key (dict_pop "role" delta) k (VStr a)
                (dict_pop_nodup _ _ Hnodup)
                (eq_trans (dict_get_pop_other k "role" delta Hrole) Hget)
                _ _ Hmerge) as [before [after [Hb [Hitem Ha]]]].
    rewrite Hcur in Hb.
    rewrite (merge_item_str_at _ _ _ _ Hb) in Hitem. injection Hitem as <-.
    rewrite Ha. apply (value_at_setitem_same _ _ _ _ Hb). }
  destruct Hgeneric as [acc [Hmerge Hacc]].
  unfold merge_chunk in *. rewrite Hmerge in *.
  destruct (dict_get "tool_calls" (dict_pop "role" delta)) as [tool_calls|] eqn:Htc;
    [|exact Hacc].
  destruct (truthy tool_calls) eqn:Htruthy; [|exact Hacc].
  destruct (String.eqb_spec k "tool_calls") as [->|Hne].
  - rewrite dict_get_pop_other in Htc by discriminate.
    rewrite Hget in Htc. injection Htc as <-. discriminate Hok.
  - rewrite merge_tool_call_other_key by exact Hne. exact Hacc.
Qed.

Lemma string_field_is_appended_witness :
  value_at "content"
    (out_response
       (merge_chunk (VDict [("content", VStr "Hel"); ("refusal", VNone)])
          [("role", VStr "assistant"); ("content", VStr "lo")])) =
  Some (VStr "Hello").
Proof.
  apply (string_field_is_appended _ _ "content" "Hel" "lo").
  - repeat constructor; simpl; intuition discriminate.
  - discriminate.
  - reflexivity.
  - reflexivity.
  - reflexivity.
Defined.

(** X3: when a generic merge completes, what the accumulator holds under
    a key whose value in the delta is a mapping is the result of merging that
    mapping into what the accumulator held under the key. *)
Theorem nested_mapping_is_merged (target : Value) (source : Dict) (k : string)
    (d : Dict) (sub : Value) :
  NoDup (keys source) ->
  dict_get k source = Some (VDict d) ->
  value_at k target = Some sub ->
  snd (merge_fields target source) = None ->
  value_at k (fst (merge_fields target source)) = Some (fst (merge_fields sub d)).
Proof.
  intros Hnodup Hget Hcur Hok.
  destruct (merge_fields target source) as [target' r] eqn:Hmerge.
  simpl in *. subst r.
  destruct (merge_fields_at_key source k (VDict d) Hnodup Hget _ _ Hmerge)
    as [before [after [Hb [Hitem Ha]]]].
  rewrite Hcur in Hb. rewrite merge_item_dict in Hitem.
  rewrite (value_at_getitem _ _ _ Hb) in Hitem.
  destruct (merge_fields sub d) as [sub' r]. injection Hitem as <- ->.
  rewrite Ha. apply (value_at_setitem_same _ _ _ _ Hb).
Qed.

Lemma nested_mapping_is_merged_witness :
  value_at "function"
    (fst (merge_fields
            (VDict [("function", VDict [("name", VStr "ad"); ("arguments", VStr "{")])])
            [("function", VDict [("name", VStr "d"); ("arguments", VStr "}")])])) =
  Some (VDict [("name", VStr "add"); ("arguments", VStr "{}")]).
Proof.
  rewrite (nested_mapping_is_merged _ _ "function"
             [("name", VStr "d"); ("arguments", VStr "}")]
             (VDict [("name", VStr "ad"); ("arguments", VStr "{")])).
  - reflexivity.
  - repeat constructor; simpl; intuition discriminate.
  - reflexivity.
  - reflexivity.
  - reflexivity.
Defined.

(** *** Fields the accumulator lacks *)

Lemma merge_item_missing (target : Value) (k : string) (v : Value) :
  is_str v || is_dict v = true -> value_at k target = None ->
  exists e, merge_item target k v = (target, Some e).
Proof.
  intros Hkind Hnone.
  destruct (value_at_none_getitem _ _ Hnone) as [e He].
  destruct v; try discriminate.
  - simpl. unfold iadd_str. rewrite He. exists e. reflexivity.
  - rewrite merge_item_dict, He. exists e. reflexivity.
Qed.

Lemma merge_fields_missing (source : Dict) (k : string) (v : Value) :
  In (k, v) source -> is_str v || is_dict v = true ->
  forall target, value_at k target = None ->
  exists e, snd (merge_fields target source) = Some e.
Proof.
  intros Hin Hkind.
  induction source as [|[key value] rest IH]; [destruct Hin|].
  intros target Hnone. simpl.
  destruct (merge_item target key value) as [t1 [e|]] eqn:Hstep;
    [exists e; reflexivity|].
  destruct Hin as [[= -> ->]|Hin].
  - destruct (merge_item_missing target k v Hkind Hnone) as [e He].
    congruence.
  - apply (IH Hin).
    destruct (String.eqb_spec k key) as [->|Hne].
    + destruct (is_str value || is_dict value) eqn:Hvalue.
      * destruct (merge_item_missing target key value Hvalue Hnone) as [e He].
        congruence.
      * apply orb_false_elim in Hvalue. destruct Hvalue as [Hs Hd].
        rewrite (merge_item_inert _ _ _ Hs Hd) in Hstep.
        injection Hstep as <-. exact Hnone.
    + pose proof (merge_item_other_key target k key value Hne) as Hother.
      rewrite Hstep in Hother. simpl in Hother. congruence.
Qed.

Lemma merge_item_keeps_none (target : Value) (k key : string) (value : Value) :
  value_at k target = None ->
  value_at k (fst (merge_item target key value)) = None.
Proof.
  intros Hnone.
  destruct (String.eqb_spec k key) as [<-|Hne];
    [|rewrite merge_item_other_key by exact Hne; exact Hnone].
  destruct (is_str value || is_dict value) eqn:Hvalue.
  - destruct (merge_item_missing target k value Hvalue Hnone) as [e ->].
    exact Hnone.
  - apply orb_false_elim in Hvalue. destruct Hvalue as [Hs Hd].
    rewrite (merge_item_inert _ _ _ Hs Hd). exact Hnone.
Qed.

Lemma merge_fields_keeps_none (source : Dict) (k : string) (target : Value) :
  value_at k target = None ->
  value_at k (fst (merge_fields target source)) = None.
Proof.
  revert target. induction source as [|[key value] rest IH]; intros target Hnone;
    simpl; [exact Hnone|].
  pose proof (merge_item_keeps_none target k key value Hnone) as Hstep.
  destruct (merge_item target key value) as [t1 [e|]]; simpl in *;
    [exact Hstep|apply IH, Hstep].
Qed.

(** X4: a delta that holds a string or a mapping under a key, other than
    [role], that the accumulator lacks makes the call raise: the field is
    not created. *)
Theorem missing_field_raises (final_response : Value) (delta : Dict)
    (k : string) (v : Value) :
  In (k, v) delta ->
  k <> "role" ->
  is_str v || is_dict v = true ->
  value_at k final_response = None ->
  exists e, out_raised (merge_chunk final_response delta) = Some e /\
            value_at k (out_response (merge_chunk final_response delta)) = None.
Proof.
  intros Hin Hrole Hkind Hnone.
  destruct (merge_fields_missing (dict_pop "role" delta) k v
              (in_dict_pop_other _ _ _ _ Hrole Hin) Hkind final_response Hnone)
    as [e He].
  unfold merge_chunk.
  destruct (merge_fields final_response (dict_pop "role" delta))
    as [acc r] eqn:Hmerge.
  simpl in He. subst r. exists e. split; [reflexivity|]. simpl.
  pose proof (merge_fields_keeps_none (dict_pop "role" delta) k final_response Hnone)
    as Hkept.
  rewrite Hmerge in Hkept. exact Hkept.
Qed.

Lemma missing_field_raises_witness :
  exists e,
    out_raised (merge_chunk (VDict [("content", VStr "")])
                  [("refusal", VStr "no")]) = Some e /\
    value_at "refusal"
      (out_response (merge_chunk (VDict [("content", VStr "")])
                       [("refusal", VStr "no")])) = None.
Proof.
  apply (missing_field_raises _ _ "refusal" (VStr "no")).
  - left. reflexivity.
  - discriminate.
  - reflexivity.
  - reflexivity.
Defined.

(** *** Strings only grow *)

Lemma merge_item_extends (target : Value) (k key s : string) (value : Value) :
  value_at k target = Some (VStr s) ->
  exists suffix,
    value_at k (fst (merge_item target key value)) = Some (VStr (s ++ suffix)).
Proof.
  intros Hcur.
  destruct (String.eqb_spec k key) as [<-|Hne].
  - destruct value;
      try (exists ""; rewrite str_append_empty; exact Hcur).
    + exists s0. rewrite (merge_item_str_at _ _ _ _ Hcur).
      apply (value_at_setitem_same _ _ _ _ Hcur).
    + exists "". rewrite str_append_empty, merge_item_dict.
      rewrite (value_at_getitem _ _ _ Hcur).
      pose proof (merge_fields_into_other d (VStr s) eq_refl) as Hsame.
      destruct (merge_fields (VStr s) d) as [sub' r]. simpl in *. subst sub'.
      apply (value_at_setitem_same _ _ _ _ Hcur).
  - exists "". rewrite str_append_empty, merge_item_other_key by exact Hne.
    exact Hcur.
Qed.

Lemma merge_fields_extends (source : Dict) (target : Value) (k s : string) :
  value_at k target = Some (VStr s) ->
  exists suffix,
    value_at k (fst (merge_fields target source)) = Some (VStr (s ++ suffix)).
Proof.
  revert target s. induction source as [|[key value] rest IH]; intros target s Hcur;
    simpl.
  - exists "". rewrite str_append_empty. exact Hcur.
  - destruct (merge_item_extends target k key s value Hcur) as [a Ha].
    destruct (merge_item target key value) as [t1 [e|]]; simpl in *;
      [exists a; exact Ha|].
    destruct (IH t1 _ Ha) as [b Hb].
    exists (a ++ b)%string. rewrite <- str_append_assoc. exact Hb.
Qed.

(** X5: the merge never shortens or overwrites a string field of the
    accumulator: whatever the delta, and whether or not the call raises, the
    field holds afterwards the string it held, followed by what was
    appended. *)
Theorem string_fields_only_grow (final_response : Value) (delta : Dict)
    (k s : string) :
  value_at k final_response = Some (VStr s) ->
  exists suffix,
    value_at k (out_response (merge_chunk final_response delta)) =
    Some (VStr (s ++ suffix)).
Proof.
  intros Hcur.
  destruct (merge_fields_extends (dict_pop "role" delta) final_response k s Hcur)
    as [suffix Hgeneric].
  exists suffix.
  destruct (String.eqb_spec k "tool_calls") as [->|Hne];
    [|rewrite merge_chunk_generic_key by exact Hne; exact Hgeneric].
  unfold merge_chunk.
  destruct (merge_fields final_response (dict_pop "role" delta)) as [acc [e|]];
    simpl in *; [exact Hgeneric|].
  destruct (dict_get "tool_calls" (dict_pop "role" delta)) as [tool_calls|];
    [|exact Hgeneric].
  destruct (truthy tool_calls); [|exact Hgeneric].
  unfold merge_tool_call.
  destruct tool_calls as [| | | |[|first others]|]; try exact Hgeneric.
  destruct (pop_index first) as [e|[index first']]; [exact Hgeneric|].
  rewrite (value_at_getitem _ _ _ Hgeneric).
  destruct (subscript (VStr (s ++ suffix)) index) as [e|slot]; [exact Hgeneric|].
  destruct (merge_fields slot first') as [slot' r]. simpl.
  apply (value_at_setitem_same _ _ _ _ Hgeneric).
Qed.

Lemma string_fields_only_grow_witness :
  exists suffix,
    value_at "content"
      (out_response
         (merge_chunk (VDict [("content", VStr "Hel")])
            [("content", VStr "lo"); ("refusal", VStr "x")])) =
    Some (VStr ("Hel" ++ suffix)).
Proof.
  apply (string_fields_only_grow (VDict [("content", VStr "Hel")])
           [("content", VStr "lo"); ("refusal", VStr "x")] "content" "Hel").
  reflexivity.
Defined.

(** *** A stream of chunks *)

(** The calls [merge_chunk(final_response, delta)] for the deltas of a
    stream, in order, up to the first that raises. *)
Fixpoint merge_stream (final_response : Value) (deltas : list Dict)
  : Value * option ExcKind :=
  match deltas with
  | [] => (final_response, None)
  | delta :: rest =>
      match out_raised (merge_chunk final_response delta) with
      | None => merge_stream (out_response (merge_chunk final_response delta)) rest
      | Some e => (out_response (merge_chunk final_response delta), Some e)
      end
  end.

Lemma merge_chunk_one_string (final_response : Value) (k s a : string) :
  k <> "role" -> k <> "tool_calls" ->
  value_at k final_response = Some (VStr s) ->
  merge_chunk final_response [(k, VStr a)] =
  mkOutcome (setitem final_response k (VStr (s ++ a))) [(k, VStr a)] None.
Proof.
  intros Hrole Htool Hcur.
  assert (Hpop : dict_pop "role" [(k, VStr a)] = [(k, VStr a)]).
  { cbn [dict_pop]. destruct (String.eqb_spec "role" k); congruence. }
  assert (Hget : dict_get "tool_calls" [(k, VStr a)] = None).
  { cbn [dict_get]. destruct (String.eqb_spec "tool_calls" k); congruence. }
  assert (Hmerge : merge_fields final_response [(k, VStr a)] =
                   (setitem final_response k (VStr (s ++ a)), None)).
  { cbn [merge_fields]. rewrite (merge_item_str_at _ _ _ _ Hcur). reflexivity. }
  unfold merge_chunk. rewrite Hpop, Hmerge, Hget. reflexivity.
Qed.

(** X6: the chunks of a string, merged one call after the other into a
    string field, rebuild the string: no call raises, and the field holds at
    the end what it held at first followed by the chunks in call order. *)
Theorem chunks_rebuild_the_string (parts : list string) (final_response : Value)
    (k s : string) :
  k <> "role" -> k <> "tool_calls" ->
  value_at k final_response = Some (VStr s) ->
  snd (merge_stream final_response (map (fun part => [(k, VStr part)]) parts))
  = None /\
  value_at k
    (fst (merge_stream final_response (map (fun part => [(k, VStr part)]) parts)))
  = Some (VStr (s ++ String.concat "" parts)).
Proof.
  intros Hrole Htool. revert final_response s.
  assert (Hconcat : forall part rest,
             (part ++ String.concat "" rest)%string = String.concat "" (part :: rest)).
  { intros part [|next rest]; simpl; [apply str_append_empty|reflexivity]. }
  induction parts as [|part rest IH]; intros final_response s Hcur.
  - simpl. rewrite str_append_empty. split; [reflexivity|exact Hcur].
  - cbn [map merge_stream].
    rewrite (merge_chunk_one_string _ _ _ part Hrole Htool Hcur).
    cbn [out_raised out_response].
    rewrite <- Hconcat, <- str_append_assoc.
    apply IH. apply (value_at_setitem_same _ _ _ _ Hcur).
Qed.

Lemma chunks_rebuild_the_string_witness :
  snd (merge_stream (VDict [("content", VStr "")])
         (map (fun part => [("content", VStr part)]) ["He"; "l"; "lo"])) = None /\
  value_at "content"
    (fst (merge_stream (VDict [("content", VStr "")])
            (map (fun part => [("content", VStr part)]) ["He"; "l"; "lo"])))
  = Some (VStr ("" ++ String.concat "" ["He"; "l"; "lo"])).
Proof.
  apply (chunks_rebuild_the_string ["He"; "l"; "lo"]
           (VDict [("content", VStr "")]) "content" "").
  - discriminate.
  - discriminate.
  - reflexivity.
Defined.

(** *** The tool call a delta addresses *)

Lemma in_dict_pop_incl {A : Type} (k key : string) (v : A) (d : list (string * A)) :
  In (k, v) (dict_pop key d) -> In (k, v) d.
Proof.
  induction d as [|[k' v'] rest IH]; simpl; [trivial|].
  destruct (String.eqb key k'); [intros H; right; exact H|].
  intros [H|H]; [left; exact H|right; apply IH, H].
Qed.

(** The generic path leaves the tool calls of the accumulator alone when
    the delta holds a list under [tool_calls]. *)
Lemma generic_path_keeps_tool_calls (final_response : Value) (delta : Dict)
    (calls : list Value) :
  NoDup (keys delta) ->
  dict_get "tool_calls" delta = Some (VList calls) ->
  value_at "tool_calls" (fst (merge_fields final_response (dict_pop "role" delta)))
  = value_at "tool_calls" final_response.
Proof.
  intros Hnodup Hget. apply merge_fields_skips.
  intros v Hin. apply in_dict_pop_incl in Hin.
  apply (in_dict_get _ _ _ Hnodup) in Hin.
  rewrite Hget in Hin. injection Hin as <-. split; reflexivity.
Qed.

Lemma seq_index_bound (len : nat) (n : Z) (i : nat) :
  seq_index len n = Some i -> i < len.
Proof.
  unfold seq_index.
  destruct (Z.leb_spec 0 n).
  - destruct (Z.ltb_spec n (Z.of_nat len)); [|discriminate].
    intros [= <-]. lia.
  - destruct (Z.leb_spec (- Z.of_nat len) n); [|discriminate].
    intros [= <-]. lia.
Qed.

Lemma seq_index_outside (len : nat) (n : Z) :
  (n < - Z.of_nat len \/ Z.of_nat len <= n)%Z -> seq_index len n = None.
Proof.
  unfold seq_index. intros Hout.
  destruct (Z.leb_spec 0 n).
  - destruct (Z.ltb_spec n (Z.of_nat len)); [lia|reflexivity].
  - destruct (Z.leb_spec (- Z.of_nat len) n); [lia|reflexivity].
Qed.

Lemma list_set_length (l : list Value) (i : nat) (v : Value) :
  List.length (list_set l i v) = List.length l.
Proof.
  revert i. induction l as [|x rest IH]; intros [|i]; simpl; auto.
Qed.

Lemma nth_error_list_set_other (l : list Value) (i j : nat) (v : Value) :
  j <> i -> nth_error (list_set l i v) j = nth_error l j.
Proof.
  revert i j. induction l as [|x rest IH]; intros [|i] [|j] Hne; simpl;
    try reflexivity; try congruence.
  apply IH. congruence.
Qed.

Lemma nth_error_list_set_same (l : list Value) (i : nat) (v : Value) :
  i < List.length l -> nth_error (list_set l i v) i = Some v.
Proof.
  revert i. induction l as [|x rest IH]; intros [|i] Hlt; simpl in *;
    try lia; [reflexivity|].
  apply IH. lia.
Qed.

(** X7: a tool-call fragment whose [index] lies outside the list of tool
    calls of the accumulator makes the call raise, [IndexError] when the
    generic path raised nothing, and the list is not grown: it is left as it
    was. *)
Theorem index_out_of_range_raises (final_response : Value) (delta : Dict)
    (first : Dict) (others calls : list Value) (n : Z) :
  NoDup (keys delta) ->
  dict_get "tool_calls" delta = Some (VList (VDict first :: others)) ->
  dict_get "index" first = Some (VInt n) ->
  value_at "tool_calls" final_response = Some (VList calls) ->
  (n < - Z.of_nat (List.length calls) \/ Z.of_nat (List.length calls) <= n)%Z ->
  exists e,
    out_raised (merge_chunk final_response delta) = Some e /\
    (snd (merge_fields final_response (dict_pop "role" delta)) = None ->
     e = IndexError) /\
    value_at "tool_calls" (out_response (merge_chunk final_response delta))
    = Some (VList calls).
Proof.
  intros Hnodup Hget Hindex Hcalls Hout.
  pose proof (generic_path_keeps_tool_calls final_response delta _ Hnodup Hget)
    as Hkept.
  rewrite Hcalls in Hkept.
  unfold merge_chunk.
  destruct (merge_fields final_response (dict_pop "role" delta)) as [acc [e|]];
    simpl in *.
  - exists e. split; [reflexivity|split; [discriminate|exact Hkept]].
  - rewrite dict_get_pop_other by discriminate. rewrite Hget. simpl.
    rewrite Hindex, (value_at_getitem _ _ _ Hkept). simpl.
    rewrite (seq_index_outside _ _ Hout). simpl.
    exists IndexError. split; [reflexivity|split; [reflexivity|exact Hkept]].
Qed.

Lemma index_out_of_range_raises_witness :
  exists e,
    out_raised (merge_chunk accumulator_C2
                  [("tool_calls", VList [VDict [("index", VInt 1); ("name", VStr "x")]])])
    = Some e /\
    (snd (merge_fields accumulator_C2
            (dict_pop "role"
               [("tool_calls", VList [VDict [("index", VInt 1); ("name", VStr "x")]])]))
     = None -> e = IndexError) /\
    value_at "tool_calls"
      (out_response
         (merge_chunk accumulator_C2
            [("tool_calls", VList [VDict [("index", VInt 1); ("name", VStr "x")]])]))
    = Some (VList [VDict [("name", VStr "")]]).
Proof.
  apply (index_out_of_range_raises accumulator_C2 _
           [("index", VInt 1); ("name", VStr "x")] [] [VDict [("name", VStr "")]] 1).
  - repeat constructor; simpl; intuition discriminate.
  - reflexivity.
  - reflexivity.
  - reflexivity.
  - simpl. lia.
Defined.

(** X8: a tool-call fragment is merged by position: with its [index] inside
    the list of tool calls of the accumulator, the list keeps its length, the
    elements at the other positions are left as they were, and when the call
    completes the element addressed is the result of merging into it the
    fragment without its [index]. *)
Theorem tool_call_is_merged_in_place (final_response : Value) (delta : Dict)
    (first : Dict) (others calls : list Value) (n : Z) (i : nat) :
  NoDup (keys delta) ->
  dict_get "tool_calls" delta = Some (VList (VDict first :: others)) ->
  dict_get "index" first = Some (VInt n) ->
  value_at "tool_calls" final_response = Some (VList calls) ->
  seq_index (List.length calls) n = Some i ->
  exists calls',
    value_at "tool_calls" (out_response (merge_chunk final_response delta))
    = Some (VList calls') /\
    List.length calls' = List.length calls /\
    (forall j, j <> i -> nth_error calls' j = nth_error calls j) /\
    (out_raised (merge_chunk final_response delta) = None ->
     exists slot,
       nth_error calls i = Some slot /\
       nth_error calls' i = Some (fst (merge_fields slot (dict_pop "index" first)))).
Proof.
  intros Hnodup Hget Hindex Hcalls Hin.
  pose proof (generic_path_keeps_tool_calls final_response delta _ Hnodup Hget)
    as Hkept.
  rewrite Hcalls in Hkept.
  pose proof (seq_index_bound _ _ _ Hin) as Hbound.
  destruct (nth_error calls i) as [slot|] eqn:Hslot;
    [|apply nth_error_None in Hslot; lia].
  unfold merge_chunk.
  destruct (merge_fields final_response (dict_pop "role" delta)) as [acc [e|]];
    simpl in *.
  - exists calls. split; [exact Hkept|split; [reflexivity|]].
    split; [reflexivity|discriminate].
  - rewrite dict_get_pop_other by discriminate. rewrite Hget. simpl.
    rewrite Hindex, (value_at_getitem _ _ _ Hkept). simpl.
    rewrite Hin, Hslot.
    destruct (merge_fields slot (dict_pop "index" first)) as [slot' r] eqn:Hmerge.
    simpl. exists (list_set calls i slot').
    split; [apply (value_at_setitem_same _ _ _ _ Hkept)|].
    split; [apply list_set_length|].
    split; [intros j Hj; apply nth_error_list_set_other, Hj|].
    intros _. exists slot. split; [reflexivity|].
    rewrite Hmerge. apply nth_error_list_set_same, Hbound.
Qed.

Lemma tool_call_is_merged_in_place_witness :
  exists calls',
    value_at "tool_calls"
      (out_response
         (merge_chunk
            (VDict [("tool_calls", VList [VDict [("id", VStr "a")]; VDict [("id", VStr "b")]])])
            [("tool_calls", VList [VDict [("index", VInt (-1)); ("id", VStr "c")]])]))
    = Some (VList calls') /\
    List.length calls' = 2 /\
    (forall j, j <> 1 ->
               nth_error calls' j =
               nth_error [VDict [("id", VStr "a")]; VDict [("id", VStr "b")]] j) /\
    (out_raised
       (merge_chunk
          (VDict [("tool_calls", VList [VDict [("id", VStr "a")]; VDict [("id", VStr "b")]])])
          [("tool_calls", VList [VDict [("index", VInt (-1)); ("id", VStr "c")]])])
     = None ->
     exists slot,
       nth_error [VDict [("id", VStr "a")]; VDict [("id", VStr "b")]] 1 = Some slot /\
       nth_error calls' 1 =
       Some (fst (merge_fields slot
                    (dict_pop "index" [("index", VInt (-1)); ("id", VStr "c")])))).
Proof.
  apply (tool_call_is_merged_in_place
           (VDict [("tool_calls", VList [VDict [("id", VStr "a")]; VDict [("id", VStr "b")]])])
           [("tool_calls", VList [VDict [("index", VInt (-1)); ("id", VStr "c")]])]
           [("index", VInt (-1)); ("id", VStr "c")] []
           [VDict [("id", VStr "a")]; VDict [("id", VStr "b")]] (-1) 1).
  - repeat constructor; simpl; intuition discriminate.
  - reflexivity.
  - reflexivity.
  - reflexivity.
  - reflexivity.
Defined.

End MergerMore.

(** ** Further properties of the docstring parser *)

Module DocstringMore.
Import Py Text Docstring PyFacts TextFacts DocstringFacts.

Lemma str_append_empty_r (s : string) : (s ++ "")%string = s.
Proof. induction s as [|c s IH]; simpl; congruence. Qed.

Lemma str_append_assoc_r (a b c : string) :
  ((a ++ b) ++ c)%string = (a ++ (b ++ c))%string.
Proof. induction a as [|x a IH]; simpl; congruence. Qed.

(** X9: [parse_docstring] returns a result for every docstring: the one
    statement of its loop that could raise, the update of the description of
    the current parameter by a continuation line, always finds the entry it
    extends. *)
Theorem parse_docstring_never_raises (docstring : string) :
  exists summary per_parameter,
    parse_docstring docstring = inr (summary, per_parameter).
Proof. apply parse_docstring_total. Qed.

(** *** White space at the ends *)

Lemma rstrip_cons (c : ascii) (rest : string) :
  rstrip (String c rest) =
  match rstrip rest with
  | EmptyString => if is_space c then EmptyString else String c EmptyString
  | kept => String c kept
  end.
Proof. reflexivity. Qed.

Lemma rstrip_idempotent (s : string) : rstrip (rstrip s) = rstrip s.
Proof.
  induction s as [|c rest IH]; [reflexivity|].
  rewrite rstrip_cons.
  destruct (rstrip rest) as [|k kept] eqn:Hrest.
  - destruct (is_space c) eqn:Hc; [reflexivity|].
    rewrite rstrip_cons. simpl. rewrite Hc. reflexivity.
  - rewrite rstrip_cons, IH. reflexivity.
Qed.

Lemma lstrip_head (s : string) :
  lstrip s = EmptyString \/
  exists c rest, lstrip s = String c rest /\ is_space c = false.
Proof.
  induction s as [|c rest IH]; simpl; [left; reflexivity|].
  destruct (is_space c) eqn:Hc; [exact IH|].
  right. exists c, rest. split; [reflexivity|exact Hc].
Qed.

Lemma rstrip_head (c : ascii) (rest : string) :
  is_space c = false -> exists kept, rstrip (String c rest) = String c kept.
Proof.
  intros Hc. simpl. destruct (rstrip rest) as [|k kept].
  - rewrite Hc. exists EmptyString. reflexivity.
  - exists (String k kept). reflexivity.
Qed.

Lemma strip_idempotent (s : string) : strip (strip s) = strip s.
Proof.
  unfold strip.
  destruct (lstrip_head s) as [->|[c [rest [-> Hc]]]]; [reflexivity|].
  destruct (rstrip_head c rest Hc) as [kept Hkept].
  assert (Hleft : lstrip (rstrip (String c rest)) = rstrip (String c rest)).
  { rewrite Hkept. simpl. rewrite Hc. reflexivity. }
  rewrite Hleft. apply rstrip_idempotent.
Qed.

(** X10: the summary [parse_docstring] returns has no white space at
    either end: trimming it again changes nothing. *)
Theorem summary_is_trimmed (docstring summary : string)
    (per_parameter : list (string * string)) :
  parse_docstring docstring = inr (summary, per_parameter) ->
  strip summary = summary.
Proof.
  unfold parse_docstring.
  destruct (parse_lines initial_state (split newline docstring)) as [e|st];
    [discriminate|].
  unfold parse_result. intros [= <- _]. apply strip_idempotent.
Qed.

Lemma summary_is_trimmed_witness :
  strip "Summary line." = "Summary line.".
Proof.
  apply (summary_is_trimmed ("  Summary line.  " ++ String newline "Args:")
           "Summary line." []).
  reflexivity.
Defined.

(** *** The lines after the marker *)

Lemma parse_lines_app (before after : list string) (st : ParseState) :
  parse_lines st (before ++ after) =
  match parse_lines st before with
  | inl e => inl e
  | inr st' => parse_lines st' after
  end.
Proof.
  revert st. induction before as [|raw rest IH]; intros st; simpl; [reflexivity|].
  destruct (parse_line st raw) as [e|st']; [reflexivity|apply IH].
Qed.

(** Inside the Args section a line changes neither the description lines
    nor the flag. *)
Lemma parse_line_inside (st : ParseState) (raw : string) :
  param_recorded st -> in_args_section st = true ->
  exists st', parse_line st raw = inr st' /\ param_recorded st' /\
              in_args_section st' = true /\ description st' = description st.
Proof.
  intros Hrec Hin.
  destruct (parse_line_total st raw Hrec) as [st' [Hstep Hrec']].
  exists st'. split; [exact Hstep|split; [exact Hrec'|]].
  unfold parse_line in Hstep. rewrite Hin in Hstep.
  destruct (is_args_marker (strip raw));
    [injection Hstep as <-; split; reflexivity|].
  simpl in Hstep.
  destruct (contains_char colon (strip raw)).
  - destruct (split_once colon (strip raw)) as [name text].
    injection Hstep as <-. split; [first [exact Hin|reflexivity]|reflexivity].
  - destruct (current_param st) as [param|];
      [|injection Hstep as <-; split; [first [exact Hin|reflexivity]|reflexivity]].
    destruct (negb (String.eqb param "") && negb (String.eqb (strip raw) ""));
      [|injection Hstep as <-; split; [first [exact Hin|reflexivity]|reflexivity]].
    unfold continue_param in Hstep.
    destruct (dict_get param (arg_descriptions st)); [|discriminate].
    injection Hstep as <-. split; [first [exact Hin|reflexivity]|reflexivity].
Qed.

Lemma parse_lines_inside (lines : list string) (st : ParseState) :
  param_recorded st -> in_args_section st = true ->
  exists st', parse_lines st lines = inr st' /\
              in_args_section st' = true /\ description st' = description st.
Proof.
  revert st. induction lines as [|raw rest IH]; intros st Hrec Hin; simpl.
  - exists st. repeat split; assumption.
  - destruct (parse_line_inside st raw Hrec Hin) as [st1 [-> [Hrec1 [Hin1 Hdesc1]]]].
    destruct (IH st1 Hrec1 Hin1) as [st' [Hrest [Hin' Hdesc']]].
    exists st'. split; [exact Hrest|split; [exact Hin'|congruence]].
Qed.

(** X11: the summary is made of the lines before the first Args line
    only: the marker line and every line after it, whatever it holds, stay
    out of the summary. *)
Theorem summary_stops_at_marker (docstring : string)
    (before after : list string) (marker : string) :
  split newline docstring = before ++ marker :: after ->
  Forall (fun raw => is_args_marker (strip raw) = false) before ->
  is_args_marker (strip marker) = true ->
  exists per_parameter,
    parse_docstring docstring =
    inr (strip (join " " (map strip before)), per_parameter).
Proof.
  intros Hsplit Hbefore Hmarker. unfold parse_docstring.
  rewrite Hsplit, parse_lines_app.
  rewrite (parse_lines_outside _ _ Hbefore) by reflexivity.
  cbn [parse_lines]. rewrite (parse_line_marker _ _ Hmarker).
  destruct (parse_lines_inside after
              (enter_args (mkParseState (description initial_state ++ map strip before)
                             (arg_descriptions initial_state)
                             (current_param initial_state) false)))
    as [st [-> [Hin Hdesc]]]; [intros param; discriminate|reflexivity|].
  unfold parse_result. rewrite Hin, Hdesc. simpl.
  exists (arg_descriptions st). reflexivity.
Qed.

Lemma summary_stops_at_marker_witness :
  exists per_parameter,
    parse_docstring
      ("Add two numbers." ++ String newline
         ("Args: the operands" ++ String newline "Returns: the sum")) =
    inr (strip (join " " (map strip ["Add two numbers."])), per_parameter).
Proof.
  apply (summary_stops_at_marker _ ["Add two numbers."] ["Returns: the sum"]
           "Args: the operands").
  - reflexivity.
  - repeat constructor.
  - reflexivity.
Defined.

(** *** Docstrings in the usual layout *)

Lemma strip_fixed (s : string) : strip s = s -> lstrip s = s /\ rstrip s = s.
Proof.
  unfold strip. intros Hfixed.
  assert (Hleft : lstrip s = s).
  { destruct (lstrip_head s) as [Hnil|[c [rest [Hcons Hc]]]].
    - rewrite Hnil in Hfixed. simpl in Hfixed. congruence.
    - rewrite Hcons in Hfixed.
      destruct (rstrip_head c rest Hc) as [kept Hkept].
      rewrite Hkept in Hfixed. subst s. simpl. rewrite Hc. reflexivity. }
  split; [exact Hleft|]. rewrite Hleft in Hfixed. exact Hfixed.
Qed.

Lemma rstrip_app (a b : string) :
  rstrip b <> EmptyString -> rstrip (a ++ b) = (a ++ rstrip b)%string.
Proof.
  intros Hb. induction a as [|c a IH]; [reflexivity|].
  change (String c a ++ b)%string with (String c (a ++ b)).
  rewrite rstrip_cons, IH.
  destruct (a ++ rstrip b)%string eqn:Happ; [|simpl; rewrite Happ; reflexivity].
  destruct a; simpl in Happ; congruence.
Qed.

Lemma rstrip_app_space (a : string) : rstrip (a ++ " ") = rstrip a.
Proof.
  induction a as [|c a IH]; [reflexivity|].
  change (String c a ++ " ")%string with (String c (a ++ " ")).
  rewrite !rstrip_cons, IH. reflexivity.
Qed.

Lemma strip_app_space (s : string) : strip s = s -> strip (s ++ " ") = s.
Proof.
  intros Hfixed. destruct (strip_fixed s Hfixed) as [Hleft Hright].
  destruct s as [|c rest]; [reflexivity|].
  unfold strip. simpl in Hleft |- *.
  destruct (is_space c) eqn:Hc.
  - exfalso. destruct (lstrip_head rest) as [Hnil|[c' [rest' [Hcons Hc']]]].
    + congruence.
    + rewrite Hcons in Hleft. injection Hleft as -> _. congruence.
  - change (String c (rest ++ " ")) with (String c rest ++ " ")%string.
    rewrite rstrip_app_space. exact Hright.
Qed.

Lemma contains_char_app (sep : ascii) (a b : string) :
  contains_char sep (a ++ b) = contains_char sep a || contains_char sep b.
Proof.
  induction a as [|c a IH]; simpl; [reflexivity|].
  rewrite IH. apply orb_assoc.
Qed.

Lemma contains_char_at (sep : ascii) (a b : string) :
  contains_char sep (a ++ String sep b) = true.
Proof.
  rewrite contains_char_app. cbn [contains_char].
  rewrite Ascii.eqb_refl. apply orb_true_r.
Qed.

Lemma split_once_app (sep : ascii) (a b : string) :
  contains_char sep a = false ->
  split_once sep (a ++ String sep b) = (a, b).
Proof.
  induction a as [|c a IH]; simpl.
  - intros _. rewrite Ascii.eqb_refl. reflexivity.
  - intros Hfree. apply orb_false_elim in Hfree. destruct Hfree as [Hc Ha].
    rewrite Hc, (IH Ha). reflexivity.
Qed.

Lemma split_line (line rest : string) :
  contains_char newline line = false ->
  split newline (line ++ String newline rest) = line :: split newline rest.
Proof.
  induction line as [|c line IH]; simpl.
  - intros _. reflexivity.
  - intros Hfree. apply orb_false_elim in Hfree. destruct Hfree as [Hc Hline].
    rewrite Hc, (IH Hline). reflexivity.
Qed.

Lemma split_one_line (line : string) :
  contains_char newline line = false -> split newline line = [line].
Proof.
  induction line as [|c line IH]; simpl; [reflexivity|].
  intros Hfree. apply orb_false_elim in Hfree. destruct Hfree as [Hc Hline].
  rewrite Hc, (IH Hline). reflexivity.
Qed.

(** Splitting at the line ends gives back the lines that were joined. *)
Lemma split_join_lines (line : string) (lines : list string) :
  Forall (fun l => contains_char newline l = false) (line :: lines) ->
  split newline (join (String newline "") (line :: lines)) = line :: lines.
Proof.
  revert line. induction lines as [|next rest IH]; intros line Hlines.
  - apply split_one_line. inversion Hlines. assumption.
  - change (join (String newline "") (line :: next :: rest))
      with (line ++ String newline (join (String newline "") (next :: rest)))%string.
    inversion Hlines as [|? ? Hline Hrest]. subst.
    rewrite (split_line _ _ Hline), (IH next Hrest). reflexivity.
Qed.

Lemma lower_char_colon (c : ascii) : lower_char c = colon -> c = colon.
Proof.
  destruct c as [[] [] [] [] [] [] [] []]; vm_compute; congruence.
Qed.

(** A marker has a colon in fifth place, after the letters of "args". *)
Lemma marker_shape (line : string) :
  is_args_marker line = true ->
  exists word rest,
    line = (word ++ String colon rest)%string /\
    lower word = "args" /\ contains_char colon word = false.
Proof.
  unfold is_args_marker.
  destruct line as [|c1 [|c2 [|c3 [|c4 [|c5 rest]]]]]; cbn [lower startswith];
    try (rewrite ?andb_false_r; discriminate).
  intros Hmarker.
  repeat (apply andb_prop in Hmarker; destruct Hmarker as [? Hmarker]).
  repeat match goal with
         | H : Ascii.eqb _ _ = true |- _ => apply Ascii.eqb_eq in H
         end.
  exists (String c1 (String c2 (String c3 (String c4 ""))))%string, rest.
  assert (c5 = colon) by (apply lower_char_colon; symmetry; assumption).
  subst c5. split; [reflexivity|]. split; [cbn [lower]; congruence|].
  cbn [contains_char].
  repeat match goal with
         | |- context [Ascii.eqb ?c colon] =>
             destruct (Ascii.eqb_spec c colon);
             [subst; vm_compute in *; congruence|]
         end.
  reflexivity.
Qed.

Lemma no_colon_no_marker (line : string) :
  contains_char colon line = false -> is_args_marker line = false.
Proof.
  intros Hfree. destruct (is_args_marker line) eqn:Hmarker; [|reflexivity].
  destruct (marker_shape line Hmarker) as [word [rest [-> _]]].
  rewrite contains_char_app in Hfree. cbn [contains_char] in Hfree.
  rewrite Ascii.eqb_refl, orb_true_r in Hfree. discriminate.
Qed.

Lemma named_line_no_marker (name tail : string) :
  contains_char colon name = false -> lower name <> "args" ->
  is_args_marker (name ++ String colon tail) = false.
Proof.
  intros Hfree Hname.
  destruct (is_args_marker (name ++ String colon tail)) eqn:Hmarker; [|reflexivity].
  destruct (marker_shape _ Hmarker) as [word [rest [Heq [Hword Hword_free]]]].
  pose proof (split_once_app colon name tail Hfree) as Hleft.
  rewrite Heq, (split_once_app colon word rest Hword_free) in Hleft.
  injection Hleft as -> _. contradiction.
Qed.

(** The documentation of one parameter: its name, the text on its line and
    the continuation lines. *)
Record ParamDoc : Type := mkParamDoc {
  pd_name : string;
  pd_text : string;
  pd_more : list string
}.

(** The lines of a parameter in the Args section. *)
Definition param_lines (e : ParamDoc) : list string :=
  ("    " ++ pd_name e ++ ": " ++ pd_text e)%string
  :: map (fun more => ("        " ++ more)%string) (pd_more e).

(** A docstring in the usual layout: a summary line, a blank line, the
    marker and the lines of the parameters. *)
Definition layout (summary : string) (entries : list ParamDoc) : string :=
  join (String newline "")
    (summary :: "" :: "Args:" :: flat_map param_lines entries).

Definition clean (s : string) : Prop :=
  contains_char newline s = false /\ strip s = s.

Definition clean_param (e : ParamDoc) : Prop :=
  (clean (pd_name e) /\ contains_char colon (pd_name e) = false /\
   pd_name e <> "" /\ lower (pd_name e) <> "args") /\
  clean (pd_text e) /\
  Forall (fun more => clean more /\ contains_char colon more = false /\ more <> "")
    (pd_more e).

(** The description recorded for a parameter. *)
Definition described (e : ParamDoc) : string * string :=
  (pd_name e, join " " (pd_text e :: pd_more e)).

Definition in_section (args : list (string * string)) (param : option string)
    (st : ParseState) : ParseState :=
  mkParseState (description st) args param true.

Lemma dict_set_twice {A : Type} (k : string) (v v' : A) (d : list (string * A)) :
  dict_set k v' (dict_set k v d) = dict_set k v' d.
Proof.
  induction d as [|[k' x] rest IH]; simpl.
  - rewrite String.eqb_refl. reflexivity.
  - destruct (String.eqb k k') eqn:Hk; simpl; rewrite Hk; [reflexivity|].
    rewrite IH. reflexivity.
Qed.

Lemma dict_set_unchanged {A : Type} (k : string) (v : A) (d : list (string * A)) :
  dict_get k d = Some v -> dict_set k v d = d.
Proof.
  induction d as [|[k' x] rest IH]; simpl; [discriminate|].
  destruct (String.eqb k k').
  - intros [= ->]. reflexivity.
  - intros Hget. rewrite (IH Hget). reflexivity.
Qed.

Lemma dict_set_fresh {A : Type} (k : string) (v : A) (d : list (string * A)) :
  ~ In k (keys d) -> dict_set k v d = d ++ [(k, v)].
Proof.
  unfold keys. induction d as [|[k' x] rest IH]; simpl; intros Hfresh; [reflexivity|].
  destruct (String.eqb_spec k k') as [->|Hne]; [tauto|].
  rewrite IH by tauto. reflexivity.
Qed.

Lemma parse_param_line (st : ParseState) (name text : string) :
  in_args_section st = true ->
  clean name -> contains_char colon name = false -> lower name <> "args" ->
  clean text ->
  parse_line st ("    " ++ name ++ ": " ++ text) =
  inr (in_section (dict_set name text (arg_descriptions st)) (Some name) st).
Proof.
  intros Hin [_ Hname] Hfree Hargs [_ Htext].
  destruct (strip_fixed _ Hname) as [Hname_l Hname_r].
  destruct (strip_fixed _ Htext) as [Htext_l Htext_r].
  set (tail := match text with
               | EmptyString => EmptyString
               | _ => (" " ++ text)%string
               end).
  assert (Hstrip : strip ("    " ++ name ++ ": " ++ text) =
                   (name ++ String colon tail)%string).
  { unfold strip.
    change (lstrip ("    " ++ name ++ ": " ++ text))
      with (lstrip (name ++ String colon (String " " text))).
    assert (Hl : lstrip (name ++ String colon (String " " text)) =
                 (name ++ String colon (String " " text))%string).
    { destruct name as [|c name]; [reflexivity|].
      simpl in Hname_l |- *. destruct (is_space c) eqn:Hc; [|reflexivity].
      exfalso. destruct (lstrip_head name) as [Hnil|[c' [rest' [Hcons Hc']]]].
      - congruence.
      - rewrite Hcons in Hname_l. injection Hname_l as -> _. congruence. }
    rewrite Hl.
    assert (Htail : rstrip (String colon (String " " text)) = String colon tail).
    { rewrite rstrip_cons. subst tail. destruct text as [|c text]; [reflexivity|].
      rewrite rstrip_cons, Htext_r. reflexivity. }
    rewrite rstrip_app; rewrite Htail; [reflexivity|discriminate]. }
  unfold parse_line. rewrite Hstrip.
  rewrite (named_line_no_marker _ _ Hfree Hargs), Hin. simpl negb. cbv iota.
  rewrite contains_char_at, (split_once_app _ _ _ Hfree), Hname.
  assert (Hdesc : strip tail = text).
  { subst tail. destruct text as [|c text]; [reflexivity|].
    unfold strip. simpl lstrip. exact Htext. }
  rewrite Hdesc. reflexivity.
Qed.

Lemma parse_more_lines (more : list string) (st : ParseState)
    (name cur : string) :
  in_args_section st = true ->
  current_param st = Some name -> name <> "" ->
  dict_get name (arg_descriptions st) = Some cur ->
  Forall (fun line => clean line /\ contains_char colon line = false /\ line <> "")
    more ->
  parse_lines st (map (fun line => ("        " ++ line)%string) more) =
  inr (in_section
         (dict_set name
            (cur ++ String.concat "" (map (fun line => " " ++ line) more))%string
            (arg_descriptions st))
         (Some name) st).
Proof.
  intros Hin Hcur Hname Hget Hmore. revert st cur Hin Hcur Hget.
  induction Hmore as [|line rest [[_ Hline] [Hfree Hne]] _ IH];
    intros st cur Hin Hcur Hget.
  - simpl. rewrite str_append_empty_r.
    destruct st as [desc args param flag]; simpl in *. subst.
    unfold in_section. simpl. rewrite (dict_set_unchanged _ _ _ Hget).
    reflexivity.
  - cbn [map parse_lines].
    assert (Hstep : parse_line st ("        " ++ line) =
                    inr (in_section
                           (dict_set name (cur ++ (" " ++ line))%string
                              (arg_descriptions st)) (Some name) st)).
    { unfold parse_line.
      assert (Hstrip : strip ("        " ++ line) = line).
      { unfold strip. simpl lstrip.
        destruct (strip_fixed _ Hline) as [-> ->]. reflexivity. }
      rewrite Hstrip, (no_colon_no_marker _ Hfree), Hin, Hfree, Hcur.
      simpl negb. cbv iota.
      destruct (String.eqb_spec name ""); [contradiction|].
      destruct (String.eqb_spec line ""); [contradiction|].
      simpl. unfold continue_param. rewrite Hget, Hin, Hcur. reflexivity. }
    rewrite Hstep.
    rewrite (IH (in_section
                   (dict_set name (cur ++ (" " ++ line))%string (arg_descriptions st))
                   (Some name) st)
               (cur ++ (" " ++ line))%string eq_refl eq_refl
               (dict_get_set_same _ _ _)).
    unfold in_section. simpl. rewrite dict_set_twice.
    do 3 f_equal.
    rewrite str_append_assoc_r. f_equal.
    destruct rest; simpl; [rewrite str_append_empty_r|]; reflexivity.
Qed.

Lemma join_spaces (text : string) (more : list string) :
  join " " (text :: more) =
  (text ++ String.concat "" (map (fun line => " " ++ line) more))%string.
Proof.
  revert text. induction more as [|line rest IH]; intros text.
  - simpl. rewrite str_append_empty_r. reflexivity.
  - change (join " " (text :: line :: rest))
      with (text ++ " " ++ join " " (line :: rest))%string.
    rewrite IH. f_equal.
    destruct rest; simpl; [rewrite !str_append_empty_r|]; reflexivity.
Qed.

Lemma parse_param_lines (st : ParseState) (e : ParamDoc) :
  in_args_section st = true -> clean_param e ->
  parse_lines st (param_lines e) =
  inr (in_section
         (dict_set (pd_name e) (snd (described e)) (arg_descriptions st))
         (Some (pd_name e)) st).
Proof.
  intros Hin [[Hname [Hfree [Hne Hargs]]] [Htext Hmore]].
  unfold param_lines. cbn [parse_lines].
  rewrite (parse_param_line st _ _ Hin Hname Hfree Hargs Htext).
  rewrite (parse_more_lines (pd_more e)
             (in_section (dict_set (pd_name e) (pd_text e) (arg_descriptions st))
                (Some (pd_name e)) st)
             (pd_name e) (pd_text e)
             eq_refl eq_refl Hne (dict_get_set_same _ _ _) Hmore).
  unfold in_section, described.
  cbn [snd description arg_descriptions current_param in_args_section].
  rewrite dict_set_twice, join_spaces. reflexivity.
Qed.

Definition record_param (args : list (string * string)) (e : ParamDoc)
  : list (string * string) :=
  dict_set (pd_name e) (snd (described e)) args.

Lemma parse_all_param_lines (entries : list ParamDoc) (st : ParseState) :
  in_args_section st = true -> Forall clean_param entries ->
  exists param,
    parse_lines st (flat_map param_lines entries) =
    inr (in_section (fold_left record_param entries (arg_descriptions st)) param st).
Proof.
  intros Hin Hclean. revert st Hin.
  induction Hclean as [|e rest He _ IH]; intros st Hin.
  - exists (current_param st). simpl. destruct st; simpl in *. subst. reflexivity.
  - cbn [flat_map]. rewrite parse_lines_app, (parse_param_lines st e Hin He).
    destruct (IH (in_section (record_param (arg_descriptions st) e)
                    (Some (pd_name e)) st) eq_refl) as [param Hrest].
    exists param. exact Hrest.
Qed.

Lemma record_fresh_params (entries : list ParamDoc) (args : list (string * string)) :
  NoDup (keys args ++ map pd_name entries) ->
  fold_left record_param entries args = args ++ map described entries.
Proof.
  revert args. induction entries as [|e rest IH]; intros args Hnodup; simpl.
  - rewrite app_nil_r. reflexivity.
  - assert (Hfresh : ~ In (pd_name e) (keys args)).
    { intros Hin. apply NoDup_remove_2 in Hnodup. apply Hnodup, in_or_app.
      left. exact Hin. }
    unfold record_param at 2. rewrite (dict_set_fresh _ _ _ Hfresh).
    rewrite IH.
    + rewrite <- app_assoc. reflexivity.
    + unfold keys in *. rewrite map_app, <- app_assoc. simpl.
      simpl in Hnodup.
      apply NoDup_Add with (a := pd_name e) (l := map fst args ++ map pd_name rest).
      * apply Add_app.
      * split; [apply (NoDup_remove_1 _ _ _ Hnodup)
               |apply (NoDup_remove_2 _ _ _ Hnodup)].
Qed.

Lemma param_lines_one_line (e : ParamDoc) :
  clean_param e ->
  Forall (fun line => contains_char newline line = false) (param_lines e).
Proof.
  intros [[[Hname _] _] [[Htext _] Hmore]]. unfold param_lines.
  constructor.
  - rewrite !contains_char_app, Hname, Htext. reflexivity.
  - apply Forall_map. eapply Forall_impl; [|exact Hmore].
    intros line [[Hline _] _]. rewrite contains_char_app, Hline. reflexivity.
Qed.

(** X12: a docstring in the usual layout parses to its parts. For a
    one-line summary and parameters with distinct names, written as a
    summary line, a blank line, the line "Args:", and for each parameter a
    line "name: text" followed by its continuation lines, [parse_docstring]
    returns the summary and, for each parameter in order, its text and
    continuation lines joined by single spaces. *)
Theorem layout_round_trip (summary : string) (entries : list ParamDoc) :
  clean summary -> is_args_marker summary = false ->
  Forall clean_param entries ->
  NoDup (map pd_name entries) ->
  parse_docstring (layout summary entries) =
  inr (summary, map described entries).
Proof.
  intros [Hline Hsummary] Hmarker Hclean Hnodup.
  unfold parse_docstring, layout.
  rewrite split_join_lines.
  - cbn [parse_lines].
    rewrite (parse_line_outside initial_state summary)
      by (rewrite ?Hsummary; assumption || reflexivity).
    rewrite parse_line_outside by reflexivity.
    rewrite parse_line_marker by reflexivity.
    match goal with
    | |- context [parse_lines ?st _] =>
        destruct (parse_all_param_lines entries st eq_refl Hclean) as [param ->]
    end.
    unfold parse_result, in_section, enter_args. simpl.
    rewrite Hsummary, (record_fresh_params entries []) by exact Hnodup.
    change (summary ++ String " " (strip ""))%string with (summary ++ " ")%string.
    rewrite (strip_app_space _ Hsummary). reflexivity.
  - constructor; [exact Hline|].
    constructor; [reflexivity|]. constructor; [reflexivity|].
    clear - Hclean.
    induction Hclean as [|e rest He _ IH]; cbn [flat_map]; [constructor|].
    apply Forall_app. split; [apply param_lines_one_line, He|exact IH].
Qed.

Definition documented_x : ParamDoc := mkParamDoc "x" "desc." ["continued."].
Definition documented_y : ParamDoc := mkParamDoc "y" "other." [].

Lemma layout_round_trip_witness :
  parse_docstring (layout "Summary line." [documented_x; documented_y]) =
  inr ("Summary line.", [("x", "desc. continued."); ("y", "other.")]).
Proof.
  apply (layout_round_trip "Summary line." [documented_x; documented_y]).
  - split; reflexivity.
  - reflexivity.
  - repeat constructor; simpl; discriminate.
  - repeat constructor; simpl; intuition discriminate.
Defined.

(** *** What precedes the marker *)

Lemma split_pieces_one_line (s : string) :
  Forall (fun line => contains_char newline line = false) (split newline s).
Proof.
  induction s as [|c rest IH]; simpl; [repeat constructor|].
  destruct (Ascii.eqb c newline) eqn:Hc; [constructor; [reflexivity|exact IH]|].
  destruct (split newline rest) as [|field fields]; [repeat constructor; simpl|].
  - rewrite Hc. reflexivity.
  - inversion IH as [|? ? Hfield Hfields]. subst.
    constructor; [simpl; rewrite Hc, Hfield; reflexivity|exact Hfields].
Qed.

(** Two states of the loop that differ in the description lines only. *)
Definition same_section (st1 st2 : ParseState) : Prop :=
  arg_descriptions st1 = arg_descriptions st2 /\
  current_param st1 = current_param st2 /\
  in_args_section st1 = in_args_section st2.

Lemma parse_line_same_section (st1 st2 : ParseState) (raw : string) :
  same_section st1 st2 ->
  match parse_line st1 raw, parse_line st2 raw with
  | inr st1', inr st2' => same_section st1' st2'
  | inl _, inl _ => True
  | _, _ => False
  end.
Proof.
  intros [Hargs [Hcur Hflag]]. unfold parse_line.
  destruct (is_args_marker (strip raw)); [unfold same_section; simpl; repeat split; congruence|].
  rewrite <- Hflag.
  destruct (in_args_section st1) eqn:Hin1; simpl; [|unfold same_section; simpl; repeat split;
       congruence].
  destruct (contains_char colon (strip raw)).
  - destruct (split_once colon (strip raw)) as [name text].
    unfold same_section; simpl; repeat split; congruence.
  - rewrite <- Hcur.
    destruct (current_param st1) as [param|] eqn:Hcur1; [|unfold same_section; simpl; repeat split;
       congruence].
    destruct (negb (String.eqb param "") && negb (String.eqb (strip raw) ""));
      [|unfold same_section; simpl; repeat split;
       congruence].
    unfold continue_param. rewrite <- Hargs.
    destruct (dict_get param (arg_descriptions st1)) eqn:Hget1; [|exact I].
    unfold same_section; simpl; repeat split; congruence.
Qed.

Lemma parse_lines_same_section (lines : list string) (st1 st2 : ParseState) :
  same_section st1 st2 ->
  match parse_lines st1 lines, parse_lines st2 lines with
  | inr st1', inr st2' => same_section st1' st2'
  | inl _, inl _ => True
  | _, _ => False
  end.
Proof.
  revert st1 st2. induction lines as [|raw rest IH]; intros st1 st2 Hsame; simpl.
  - exact Hsame.
  - pose proof (parse_line_same_section st1 st2 raw Hsame) as Hstep.
    destruct (parse_line st1 raw) as [e1|st1'], (parse_line st2 raw) as [e2|st2'];
      try contradiction; [exact I|].
    apply IH, Hstep.
Qed.

(** X17: the per-parameter mapping is read from the lines after the first
    Args line only: the docstring and the text that starts at its marker
    line give the same mapping, whatever the lines before the marker hold. *)
Theorem parameters_come_after_marker (docstring : string)
    (before after : list string) (marker : string) :
  split newline docstring = before ++ marker :: after ->
  Forall (fun raw => is_args_marker (strip raw) = false) before ->
  is_args_marker (strip marker) = true ->
  exists summary summary' per_parameter,
    parse_docstring docstring = inr (summary, per_parameter) /\
    parse_docstring (join (String newline "") (marker :: after))
    = inr (summary', per_parameter).
Proof.
  intros Hsplit Hbefore Hmarker.
  assert (Hlines : split newline (join (String newline "") (marker :: after))
                   = marker :: after).
  { apply split_join_lines.
    pose proof (split_pieces_one_line docstring) as Hpieces.
    rewrite Hsplit in Hpieces. apply Forall_app in Hpieces. tauto. }
  unfold parse_docstring. rewrite Hlines, Hsplit, parse_lines_app.
  rewrite (parse_lines_outside _ _ Hbefore) by reflexivity.
  cbn [parse_lines]. rewrite !(parse_line_marker _ _ Hmarker).
  match goal with
  | |- context [parse_lines ?st1 after] =>
      match goal with
      | |- context [parse_lines (enter_args initial_state) after] =>
          pose proof (parse_lines_same_section after st1 (enter_args initial_state))
            as Hsame;
          destruct (parse_lines_inside after st1) as [st1' [Hrun1 [Hin1 _]]];
          [intros param; discriminate|reflexivity|]
      end
  end.
  rewrite Hrun1 in *.
  destruct (parse_lines (enter_args initial_state) after) as [e|st2'].
  - exfalso. apply Hsame. repeat split.
  - destruct Hsame as [Hargs [_ Hflag]]; [repeat split|].
    unfold parse_result. rewrite <- Hflag, <- Hargs.
    eexists _, _, _. split; reflexivity.
Qed.

Lemma parameters_come_after_marker_witness :
  exists summary summary' per_parameter,
    parse_docstring
      ("note: see below" ++ String newline
         ("Args:" ++ String newline "  x: the input")) =
    inr (summary, per_parameter) /\
    parse_docstring
      (join (String newline "") ["Args:"; "  x: the input"]) =
    inr (summary', per_parameter).
Proof.
  apply (parameters_come_after_marker _ ["note: see below"] ["  x: the input"] "Args:").
  - reflexivity.
  - repeat constructor.
  - reflexivity.
Defined.

End DocstringMore.

(** ** Further properties of the converter *)

Module SchemaMore.
Import Py Text Docstring Schema PyFacts TextFacts DocstringFacts SchemaFacts.

(** [schema["function"]["parameters"]["properties"][name]] *)
Definition schema_property (result : Value) (name : string) : option Value :=
  match value_at "function" result with
  | Some fn =>
      match value_at "parameters" fn with
      | Some parameters =>
          match value_at "properties" parameters with
          | Some properties => value_at name properties
          | None => None
          end
      | None => None
      end
  | None => None
  end.

(** *** The property of a parameter *)

(** X13: in every schema built, the property of a parameter holds its
    type and, exactly when the docstring has an Args entry of that very name,
    the description of that entry; it holds nothing else. *)
Theorem property_has_type_and_description (func : Callable)
    (params : list Param) (p : Param) (result : Value)
    (summary : string) (per_parameter : list (string * string)) :
  fn_signature func = inr params ->
  NoDup (names params) ->
  In p params ->
  parse_docstring (docstring_of func) = inr (summary, per_parameter) ->
  function_to_json func = inr result ->
  exists text,
    schema_property result (param_name p) =
    Some (VDict (("type", VStr text) ::
                 match dict_get (param_name p) per_parameter with
                 | Some described => [("description", VStr described)]
                 | None => []
                 end)).
Proof.
  intros Hsig Hnodup Hin Hdoc Hresult.
  destruct (function_to_json_inv func params result Hsig Hresult)
    as [summary' [per' [type_hints [parameters [required [name
         [Hdoc' [_ [Hloop [_ ->]]]]]]]]]].
  rewrite Hdoc in Hdoc'. injection Hdoc' as <- <-.
  destruct (add_parameters_info _ _ _ p Hnodup Hin _ _ _ _ Hloop) as [text [_ Hget]].
  exists text. exact Hget.
Qed.

(** A function with a documented and an undocumented parameter. *)
Definition greet : Callable :=
  mkCallable (inr "greet")
    (Some ("Greet someone." ++ String newline
             ("Args:" ++ String newline "    name: who to greet"))%string)
    (inr [mkParam "name" (Some "<class 'str'>") NoDefault;
          mkParam "shout" (Some "<class 'bool'>") (DefaultValue (VBool false))])
    (inr [("name", Tstr); ("shout", Tbool)]).

Lemma property_has_type_and_description_witness :
  exists text,
    schema_property
      (schema "greet" "Greet someone."
         [("name", VDict [("type", VStr "string");
                          ("description", VStr "who to greet")]);
          ("shout", VDict [("type", VStr "boolean")])]
         ["name"]) "name" =
    Some (VDict (("type", VStr text) ::
                 match dict_get "name" [("name", "who to greet")] with
                 | Some described => [("description", VStr described)]
                 | None => []
                 end)).
Proof.
  apply (property_has_type_and_description greet
           [mkParam "name" (Some "<class 'str'>") NoDefault;
            mkParam "shout" (Some "<class 'bool'>") (DefaultValue (VBool false))]
           (mkParam "name" (Some "<class 'str'>") NoDefault) _ "Greet someone."
           [("name", "who to greet")]).
  - reflexivity.
  - repeat constructor; simpl; intuition discriminate.
  - left. reflexivity.
  - reflexivity.
  - reflexivity.
Defined.

(** *** The type of a parameter that has a type hint *)

Lemma hint_gives_type (type_hints : list (string * PyType)) (p : Param)
    (t : PyType) (text : string) :
  dict_get (param_name p) type_hints = Some t ->
  checked_param_type type_hints p = inr text ->
  exists name,
    type_name t = inr name /\
    text = match type_map t with
           | Some mapped => mapped
           | None => if String.eqb name "Any" then "string" else name
           end.
Proof.
  intros Hhint. unfold checked_param_type, param_type_str. rewrite Hhint.
  destruct (type_name t) as [e|name] eqn:Hname.
  - destruct (exn_kind e); discriminate.
  - destruct (type_hash_error t) as [e|].
    + destruct (exn_kind e); discriminate.
    + intros [= <-]. exists name. split; [reflexivity|].
      destruct t; simpl in *; reflexivity.
Qed.

(** X14: in every schema built, a parameter whose type hint (the entry of
    [typing.get_type_hints(func)] under its name) is a type of the table has
    the schema type the table gives (for [int], "integer"); a hint outside
    the table passes through under its own [__name__], except that the name
    "Any" becomes "string". *)
Theorem hinted_parameter_type (func : Callable) (params : list Param)
    (p : Param) (type_hints : list (string * PyType)) (t : PyType)
    (result : Value) :
  fn_signature func = inr params ->
  NoDup (names params) ->
  In p params ->
  get_type_hints func = inr type_hints ->
  dict_get (param_name p) type_hints = Some t ->
  function_to_json func = inr result ->
  (forall mapped, type_map t = Some mapped ->
     schema_param_type result (param_name p) = Some (VStr mapped)) /\
  (forall name, type_map t = None -> type_name t = inr name -> name <> "Any" ->
     schema_param_type result (param_name p) = Some (VStr name)) /\
  (type_map t = None -> type_name t = inr "Any" ->
     schema_param_type result (param_name p) = Some (VStr "string")).
Proof.
  intros Hsig Hnodup Hin Hhints Hhint Hresult.
  destruct (function_to_json_inv func params result Hsig Hresult)
    as [summary [per [hints' [parameters [required [fname
         [_ [Hhints' [Hloop [_ ->]]]]]]]]]].
  rewrite Hhints in Hhints'. injection Hhints' as <-.
  destruct (add_parameters_info _ _ _ p Hnodup Hin _ _ _ _ Hloop)
    as [text [Htext Hinfo]].
  destruct (hint_gives_type _ _ _ _ Hhint Htext) as [name [Hname ->]].
  assert (Hschema : schema_param_type
                      (schema fname summary parameters required)
                      (param_name p) =
                    Some (VStr match type_map t with
                               | Some mapped => mapped
                               | None => if String.eqb name "Any" then "string"
                                         else name
                               end)).
  { unfold schema_param_type, schema_properties, schema_parameters, schema.
    simpl. rewrite Hinfo. reflexivity. }
  rewrite Hschema. repeat split.
  - intros mapped ->. reflexivity.
  - intros name' -> Hname' Hother. rewrite Hname in Hname'.
    injection Hname' as <-.
    destruct (String.eqb_spec name "Any"); [contradiction|reflexivity].
  - intros -> Hany. rewrite Hname in Hany. injection Hany as ->. reflexivity.
Qed.

(** [def book_flight(seats: int, price: "Money", airport: Airport) -> bool],
    where [Money] is [float] and [Airport] a class of the module. *)
Definition book_flight_params : list Param :=
  [mkParam "seats" (Some "<class 'int'>") NoDefault;
   mkParam "price" (Some "Money") NoDefault;
   mkParam "airport" (Some "<class '__main__.Airport'>") NoDefault].

Definition book_flight_hints : list (string * PyType) :=
  [("seats", Tint); ("price", Tfloat);
   ("airport", Tother (inr "Airport") None); ("return", Tbool)].

Definition book_flight : Callable :=
  mkCallable (inr "book_flight") None (inr book_flight_params)
    (inr book_flight_hints).

Definition book_flight_schema : Value :=
  schema "book_flight" ""
    [("seats", VDict [("type", VStr "integer")]);
     ("price", VDict [("type", VStr "number")]);
     ("airport", VDict [("type", VStr "Airport")])]
    ["seats"; "price"; "airport"].

Lemma hinted_parameter_type_witness :
  function_to_json book_flight = inr book_flight_schema /\
  schema_param_type book_flight_schema "price" = Some (VStr "number") /\
  schema_param_type book_flight_schema "airport" = Some (VStr "Airport").
Proof.
  split; [reflexivity|].
  assert (Hdistinct : NoDup (names book_flight_params)).
  { repeat constructor; simpl; intuition discriminate. }
  split.
  - apply (proj1 (hinted_parameter_type book_flight book_flight_params
                    (mkParam "price" (Some "Money") NoDefault)
                    book_flight_hints Tfloat book_flight_schema
                    eq_refl Hdistinct (or_intror (or_introl eq_refl))
                    eq_refl eq_refl eq_refl)).
    reflexivity.
  - apply (proj1 (proj2 (hinted_parameter_type book_flight book_flight_params
                    (mkParam "airport" (Some "<class '__main__.Airport'>") NoDefault)
                    book_flight_hints (Tother (inr "Airport") None)
                    book_flight_schema
                    eq_refl Hdistinct (or_intror (or_intror (or_introl eq_refl)))
                    eq_refl eq_refl eq_refl))); [reflexivity|reflexivity|discriminate].
Defined.

(** *** When a schema is built *)

Lemma add_parameters_succeeds (type_hints : list (string * PyType))
    (arg_descriptions : list (string * string)) (params : list Param) :
  Forall (fun p => (exists text, checked_param_type type_hints p = inr text) /\
                   (exists b, default_is_empty (param_default p) = inr b)) params ->
  forall parameters required,
  exists parameters' required',
    add_parameters type_hints arg_descriptions params parameters required
    = inr (parameters', required').
Proof.
  induction 1 as [|p rest [[text Htext] [b Hb]] _ IH]; intros parameters required;
    simpl.
  - exists parameters, required. reflexivity.
  - unfold add_parameter. rewrite Htext, Hb. destruct b; apply IH.
Qed.

(** X15: [function_to_json] returns a schema whenever the callable has a
    [__name__], its signature and its type hints can be retrieved, the hint
    of each parameter that has one has a [__name__] and is hashable, and the
    comparison of each default with [inspect.Parameter.empty] raises
    nothing. *)
Theorem schema_is_built (func : Callable) (params : list Param)
    (name : string) (type_hints : list (string * PyType)) :
  fn_signature func = inr params ->
  fn_name func = inr name ->
  get_type_hints func = inr type_hints ->
  (forall p t, In p params -> dict_get (param_name p) type_hints = Some t ->
     (exists n, type_name t = inr n) /\ type_hash_error t = None) ->
  (forall p, In p params -> exists b, default_is_empty (param_default p) = inr b) ->
  exists result, function_to_json func = inr result.
Proof.
  intros Hsig Hname Hhints Htypes Hdefaults.
  assert (Hparams : Forall (fun p =>
                      (exists text, checked_param_type type_hints p = inr text) /\
                      (exists b, default_is_empty (param_default p) = inr b)) params).
  { apply Forall_forall. intros p Hin. split; [|apply Hdefaults, Hin].
    destruct (dict_get (param_name p) type_hints) as [t|] eqn:Hhint.
    - destruct (Htypes p t Hin Hhint) as [[n Hn] Hhash].
      unfold checked_param_type, param_type_str. rewrite Hhint, Hn, Hhash.
      eexists. reflexivity.
    - exists "string". apply no_hint_is_string, Hhint. }
  destruct (parse_docstring_total (docstring_of func))
    as [summary [per_parameter Hdoc]].
  destruct (add_parameters_succeeds type_hints per_parameter params Hparams [] [])
    as [parameters [required Hloop]].
  exists (schema name summary parameters required).
  unfold function_to_json. rewrite Hsig.
  fold (docstring_of func). rewrite Hdoc, Hhints, Hloop, Hname. reflexivity.
Qed.

Lemma schema_is_built_witness :
  exists result, function_to_json book_flight = inr result.
Proof.
  apply (schema_is_built book_flight book_flight_params "book_flight"
           book_flight_hints).
  - reflexivity.
  - reflexivity.
  - reflexivity.
  - intros p t [<-|[<-|[<-|[]]]] [= <-]; split; try reflexivity;
      eexists; reflexivity.
  - intros p [<-|[<-|[<-|[]]]]; eexists; reflexivity.
Defined.

(** *** Hints that cannot be named or hashed *)

Lemma add_parameters_fails (type_hints : list (string * PyType))
    (arg_descriptions : list (string * string)) (params : list Param)
    (p : Param) (r : Raised) :
  In p params -> checked_param_type type_hints p = inl r ->
  forall parameters required,
  exists r', add_parameters type_hints arg_descriptions params parameters required
             = inl r'.
Proof.
  intros Hin Hfail. induction params as [|q rest IH]; [destruct Hin|].
  intros parameters required. simpl.
  destruct (add_parameter type_hints arg_descriptions parameters required q)
    as [r'|[parameters1 required1]] eqn:Hstep; [exists r'; reflexivity|].
  destruct Hin as [->|Hin]; [|apply (IH Hin)].
  unfold add_parameter in Hstep. rewrite Hfail in Hstep. discriminate.
Qed.

(** X16: when the type hint of one parameter has no [__name__] or cannot
    be hashed, [function_to_json] builds no schema: it raises.  When the
    parameter is the first one and reading the [__name__] of its hint raises
    an exception other than [KeyError], that exception is what
    [function_to_json] raises: the handler of the loop lets it through. *)
Theorem unusable_hint_raises (func : Callable) (params : list Param)
    (p : Param) (type_hints : list (string * PyType)) (t : PyType) :
  fn_signature func = inr params ->
  In p params ->
  get_type_hints func = inr type_hints ->
  dict_get (param_name p) type_hints = Some t ->
  (exists e, type_name t = inl e) \/ (exists e, type_hash_error t = Some e) ->
  exists r,
    function_to_json func = inl r /\
    (forall rest e, params = p :: rest -> type_name t = inl e ->
                    exn_kind e <> KeyError -> r = Propagate e).
Proof.
  intros Hsig Hin Hhints Hhint Hbad.
  assert (Hfail : exists r, checked_param_type type_hints p = inl r /\
                            (forall e, type_name t = inl e ->
                                       exn_kind e <> KeyError -> r = Propagate e)).
  { unfold checked_param_type, param_type_str. rewrite Hhint.
    destruct (type_name t) as [e|name] eqn:Hname.
    - destruct (exn_kind e) eqn:Hkind; eexists; (split; [reflexivity|]);
        intros e' [= <-] Hother; congruence.
    - destruct Hbad as [[e He]|[e He]]; [discriminate|]. rewrite He.
      destruct (exn_kind e); eexists; (split; [reflexivity|]); discriminate. }
  destruct Hfail as [r0 [Hfail Hfirst]].
  destruct (parse_docstring_total (docstring_of func))
    as [summary [per_parameter Hdoc]].
  destruct (add_parameters_fails type_hints per_parameter params p _ Hin Hfail [] [])
    as [r Hloop].
  exists r. split.
  - unfold function_to_json. rewrite Hsig.
    fold (docstring_of func). rewrite Hdoc, Hhints, Hloop. reflexivity.
  - intros rest e -> Hname Hkind. simpl in Hloop. unfold add_parameter in Hloop.
    rewrite Hfail in Hloop. injection Hloop as <-. apply (Hfirst e Hname Hkind).
Qed.

(** [def find_user(age: int | None = None)] on Python 3.11, where a union
    type has no [__name__]. *)
Definition find_user : Callable :=
  mkCallable (inr "find_user") None
    (inr [mkParam "age" (Some "int | None") (DefaultValue VNone)])
    (inr [("age",
           Tother (inl (mkExn AttributeError
                          "'types.UnionType' object has no attribute '__name__'"))
             None)]).

Lemma unusable_hint_raises_witness :
  exists r,
    function_to_json find_user = inl r /\
    (forall rest e,
       [mkParam "age" (Some "int | None") (DefaultValue VNone)]
       = mkParam "age" (Some "int | None") (DefaultValue VNone) :: rest ->
       type_name
         (Tother (inl (mkExn AttributeError
                         "'types.UnionType' object has no attribute '__name__'"))
            None) = inl e ->
       exn_kind e <> KeyError -> r = Propagate e).
Proof.
  apply (unusable_hint_raises find_user
           [mkParam "age" (Some "int | None") (DefaultValue VNone)]
           (mkParam "age" (Some "int | None") (DefaultValue VNone))
           [("age",
             Tother (inl (mkExn AttributeError
                            "'types.UnionType' object has no attribute '__name__'"))
               None)]).
  - reflexivity.
  - left. reflexivity.
  - reflexivity.
  - reflexivity.
  - left. eexists. reflexivity.
Defined.

(** *** The required parameters and the signature error *)

(** X19: in every schema built for a callable none of whose defaults
    compares equal to [inspect.Parameter.empty], the list the schema holds
    under [required] is the names of the parameters without a default, in
    signature order (N - K names for N parameters of which K have a default),
    and the dict it holds under [properties] has a key for every parameter,
    so for every name of [required], and for nothing else; its keys are the
    parameter names in order. *)
Theorem required_lists_parameters_without_default (func : Callable)
    (params : list Param) (result : Value) :
  fn_signature func = inr params ->
  (forall p, In p params -> param_default p <> DefaultObject (inr true)) ->
  function_to_json func = inr result ->
  schema_required result = Some (VList (map VStr (required_names params))) /\
  List.length (required_names params) =
    List.length params - List.length (filter has_default params) /\
  exists properties,
    schema_properties result = Some (VDict properties) /\
    (forall name, In name (required_names params) -> dict_has name properties = true) /\
    (forall name, dict_has name properties = true <-> In name (names params)) /\
    (NoDup (names params) -> keys properties = names params).
Proof.
  intros Hsig Hplain Hresult.
  destruct (function_to_json_inv func params result Hsig Hresult)
    as [summary [per [type_hints [parameters [required [name
         [_ [_ [Hloop [_ ->]]]]]]]]]].
  apply add_parameters_inv in Hloop.
  destruct Hloop as [-> [Hkeys [Horder _]]].
  simpl in Hkeys, Horder. rewrite (listed_is_no_default params Hplain).
  split; [reflexivity|]. split; [apply required_count|].
  exists parameters. split; [reflexivity|].
  assert (Hall : forall k, dict_has k parameters = true <-> In k (names params)).
  { intros k. rewrite dict_has_in_keys, Hkeys. tauto. }
  split; [|split; [exact Hall|exact Horder]].
  intros k Hin. apply Hall, required_names_incl, Hin.
Qed.

(** [def send_email(recipient: str, subject, urgent: bool = False) -> None] *)
Definition send_email_params : list Param :=
  [mkParam "recipient" (Some "<class 'str'>") NoDefault;
   mkParam "subject" None NoDefault;
   mkParam "urgent" (Some "<class 'bool'>") (DefaultValue (VBool false))].

Definition send_email : Callable :=
  mkCallable (inr "send_email") (Some "Send a message.") (inr send_email_params)
    (inr [("recipient", Tstr); ("urgent", Tbool); ("return", TNoneType)]).

Definition send_email_schema : Value :=
  schema "send_email" "Send a message."
    [("recipient", VDict [("type", VStr "string")]);
     ("subject", VDict [("type", VStr "string")]);
     ("urgent", VDict [("type", VStr "boolean")])]
    ["recipient"; "subject"].

Lemma required_lists_parameters_without_default_witness :
  function_to_json send_email = inr send_email_schema /\
  schema_required send_email_schema =
  Some (VList [VStr "recipient"; VStr "subject"]).
Proof.
  split; [reflexivity|].
  assert (Hplain : forall p, In p send_email_params ->
                             param_default p <> DefaultObject (inr true)).
  { intros p [<-|[<-|[<-|[]]]]; discriminate. }
  apply (proj1 (required_lists_parameters_without_default send_email
                  send_email_params send_email_schema eq_refl Hplain eq_refl)).
Defined.

(** X20: when [inspect.signature] raises [ValueError] for a callable that
    has a [__name__], [function_to_json] produces no schema: it raises a
    [ValueError] whose message holds the name of the callable and the message
    of the underlying failure. *)
Theorem signature_failure_is_reported (func : Callable) (e : Exn) (name : string) :
  fn_signature func = inl e ->
  exn_kind e = ValueError ->
  fn_name func = inr name ->
  function_to_json func =
    inl (Raise ValueError
           ("Failed to get signature for function " ++ name
            ++ ": " ++ exn_message e)) /\
  contains name
    ("Failed to get signature for function " ++ name ++ ": " ++ exn_message e)
  = true /\
  contains (exn_message e)
    ("Failed to get signature for function " ++ name ++ ": " ++ exn_message e)
  = true.
Proof.
  intros Hsig Hkind Hname. unfold function_to_json. rewrite Hsig, Hkind, Hname.
  split; [reflexivity|split].
  - apply contains_after, contains_prefix.
  - do 3 apply contains_after. apply contains_self.
Qed.

(** The built-in [getattr], for which [inspect.signature] finds no
    signature. *)
Definition opaque_builtin : Callable :=
  mkCallable (inr "getattr") (Some "Get a named attribute from an object.")
    (inl (mkExn ValueError
            "no signature found for builtin <built-in function getattr>"))
    (inr []).

Lemma signature_failure_is_reported_witness :
  function_to_json opaque_builtin =
  inl (Raise ValueError
         "Failed to get signature for function getattr: no signature found for builtin <built-in function getattr>").
Proof.
  exact (proj1 (signature_failure_is_reported opaque_builtin _ "getattr"
                  eq_refl eq_refl eq_refl)).
Defined.

End SchemaMore.

(** ** The debug printer *)

Module Debug.
Import Text TextFacts.

Definition esc : string := String (ascii_of_nat 27) "".

(** [debug_print(debug, *args)] for [str] arguments: what it writes to the
    standard output, if anything.  [timestamp] is the text
    [datetime.now().strftime("%Y-%m-%d %H:%M:%S")] returns at the call. *)
Definition debug_print (debug : bool) (timestamp : string) (args : list string)
  : option string :=
  if negb debug then None
  else
    let message := join " " args in
    Some (esc ++ "[97m[" ++ esc ++ "[90m" ++ timestamp ++ esc ++ "[97m]"
          ++ esc ++ "[90m " ++ message ++ esc ++ "[0m" ++ String newline "")%string.

Lemma startswith_before (s needle after : string) :
  startswith s needle = true -> startswith (s ++ after) needle = true.
Proof.
  intros Hstart. apply startswith_append in Hstart. destruct Hstart as [rest ->].
  apply startswith_append. exists (rest ++ after)%string.
  induction needle as [|c needle IH]; simpl; congruence.
Qed.

Lemma contains_before (needle s after : string) :
  contains needle s = true -> contains needle (s ++ after) = true.
Proof.
  induction s as [|c s IH]; intros Hin.
  - rewrite contains_unfold in Hin. rewrite orb_false_r in Hin.
    rewrite contains_unfold, (startswith_before _ _ after Hin). reflexivity.
  - rewrite contains_unfold in Hin. apply orb_prop in Hin.
    change (String c s ++ after)%string with (String c (s ++ after)).
    rewrite contains_unfold. destruct Hin as [Hstart|Hrest].
    + change (String c (s ++ after)) with (String c s ++ after)%string.
      rewrite (startswith_before _ _ after Hstart). reflexivity.
    + rewrite (IH Hrest). apply orb_true_r.
Qed.

Lemma contains_joined (sep arg : string) (args : list string) :
  In arg args -> contains arg (join sep args) = true.
Proof.
  induction args as [|first rest IH]; [intros []|].
  intros Hin. destruct rest as [|next rest].
  - destruct Hin as [->|[]]. apply contains_self.
  - change (join sep (first :: next :: rest))
      with (first ++ sep ++ join sep (next :: rest))%string.
    destruct Hin as [->|Hin].
    + apply contains_prefix.
    + do 2 apply contains_after. apply IH, Hin.
Qed.

(** X18: with [debug] unset [debug_print] writes nothing, whatever the
    time and its arguments; with [debug] set it writes a text that holds the
    time stamp and the arguments joined by single spaces, so every one of
    its arguments. *)
Theorem debug_print_shows_arguments (timestamp : string) (args : list string) :
  debug_print false timestamp args = None /\
  exists text,
    debug_print true timestamp args = Some text /\
    contains timestamp text = true /\
    contains (join " " args) text = true /\
    (forall arg, In arg args -> contains arg text = true).
Proof.
  split; [reflexivity|].
  eexists. split; [reflexivity|]. split; [|split].
  - do 4 apply contains_after. apply contains_prefix.
  - do 9 apply contains_after. apply contains_prefix.
  - intros arg Hin. do 9 apply contains_after. apply contains_before.
    apply contains_joined, Hin.
Qed.

End Debug.
